(** * audio-transcribe: the live voice-chat client (App.tsx) and its PCM codec

    A shallow embedding of the session controller of [App.tsx]: the React
    state and refs of the component are the fields of one record, every
    handler ([addEntry], [cleanupSession], [startSession], [toggleSession]
    and the four transport callbacks) is a function on that record, and the
    calls the handlers make on browser objects are appended to an effect
    trace.  The PCM codec lives in [./services/audioUtils], which is not part
    of the sources at hand; it is modelled from the specification. *)

From Stdlib Require Import ZArith QArith Qminmax Qabs Qround List Bool String Ascii Lia Lqa.
Import ListNotations.

Local Open Scope Z_scope.

(** ** PCM codec *)

Module Codec.

(** Numbers are JavaScript numbers.  Samples come from a [Float32Array];
    every such value is a rational, the product of a 24-bit significand
    with 32767 or 32768 is exact in double precision, and so is a division
    of a 16-bit integer by 32768.  The codec is therefore modelled exactly
    over [Q]. *)

Definition clamp (s : Q) : Q := Qmax (-1) (Qmin 1 s).

Definition scale (s : Q) : Q :=
  if Qlt_le_dec s 0 then (s * 32768)%Q else (s * 32767)%Q.

(** Truncation toward zero, the integer part a typed-array store keeps. *)
Definition truncate (x : Q) : Z := Z.quot (Qnum x) (Zpos (Qden x)).

(** The value read back from a two-byte signed cell holding [n] modulo 2^16. *)
Definition signed16 (u : Z) : Z :=
  let m := u mod 65536 in if 32768 <=? m then m - 65536 else m.

Definition ToInt16 (x : Q) : Z := signed16 (truncate x).

(** Two bytes, low byte first. *)
Definition int16_bytes (n : Z) : list Z :=
  let u := n mod 65536 in [u mod 256; u / 256].

Definition quantize (s : Q) : Z := ToInt16 (scale (clamp s)).

(** Modelled from the spec: [encode] (exported by ./services/audioUtils,
    absent from the sources).  "For each sample, clamp to [-1,1], scale to
    a signed 16-bit integer range (multiply by 32767 if non-negative, 32768
    if negative), emit two bytes little-endian."  The spec names no
    rounding; the scaled value is stored the way a TypeScript [Int16Array]
    or [DataView.setInt16] stores a number, by truncation. *)
Definition encode (samples : list Q) : list Z :=
  flat_map (fun s => int16_bytes (quantize s)) samples.

Record AudioBuffer := mkAudioBuffer {
  channelData : list Q;
  sampleRate : Z;
  numberOfChannels : Z
}.

Definition duration (b : AudioBuffer) : Q :=
  (inject_Z (Z.of_nat (List.length (channelData b))) / inject_Z (sampleRate b))%Q.

Fixpoint int16_samples (bytes : list Z) : option (list Z) :=
  match bytes with
  | [] => Some []
  | [_] => None
  | lo :: hi :: rest =>
      match int16_samples rest with
      | Some l => Some (signed16 (lo + 256 * hi) :: l)
      | None => None
      end
  end.

Definition to_float (n : Z) : Q := (inject_Z n / 32768)%Q.

(** Modelled from the spec: [decodeToAudioBuffer] ([decodeAudioData] of
    ./services/audioUtils, absent from the sources).  "Interprets bytes as
    16-bit little-endian signed PCM, converts each sample back to a float in
    [-1,1] by dividing by 32768, produces a playable buffer with duration =
    sampleCount / sampleRateHz.  Fails with DecodeError if byte length is
    not a multiple of 2."  [None] is the DecodeError. *)
Definition decodeToAudioBuffer (bytes : list Z) (sampleRateHz channelCount : Z)
  : option AudioBuffer :=
  match int16_samples bytes with
  | Some l => Some (mkAudioBuffer (map to_float l) sampleRateHz channelCount)
  | None => None
  end.

(** The same encoder with rounding to the nearest integer (halves up)
    instead of truncation, to show that the quantization bound below does
    not hinge on the choice of truncation. *)
Definition round_half_up (x : Q) : Z := Qfloor (x + (1 # 2))%Q.

Definition encode_rounding (samples : list Q) : list Z :=
  flat_map (fun s => int16_bytes (signed16 (round_half_up (scale (clamp s))))) samples.

End Codec.

(** ** JavaScript strings *)

Module Js.

(** A string is its sequence of UTF-16 code units. *)
Definition jsstring := list N.

Definition lit (s : string) : jsstring :=
  map N_of_ascii (list_ascii_of_string s).

(** [if (text)]: a string is truthy when it is not empty. *)
Definition truthy (s : jsstring) : bool :=
  match s with [] => false | _ :: _ => true end.

(** WhiteSpace and LineTerminator code points, the ones [trim] removes. *)
Definition isWhiteSpace (c : N) : bool :=
  ((9 <=? c) && (c <=? 13) || (c =? 32) || (c =? 160) || (c =? 5760)
   || (8192 <=? c) && (c <=? 8202) || (c =? 8232) || (c =? 8233)
   || (c =? 8239) || (c =? 8287) || (c =? 12288) || (c =? 65279))%N.

Fixpoint trimStart (s : jsstring) : jsstring :=
  match s with
  | [] => []
  | c :: rest => if isWhiteSpace c then trimStart rest else s
  end.

Definition trimEnd (s : jsstring) : jsstring := rev (trimStart (rev s)).

Definition trim (s : jsstring) : jsstring := trimEnd (trimStart s).

(** [prev + text] where [text] may be [undefined]. *)
Definition toString (t : option jsstring) : jsstring :=
  match t with Some s => s | None => lit "undefined" end.

(** A [Set] of object handles in insertion order. *)
Definition set_add (x : nat) (l : list nat) : list nat :=
  if existsb (Nat.eqb x) l then l else l ++ [x].

Definition set_delete (x : nat) (l : list nat) : list nat :=
  filter (fun y => negb (Nat.eqb x y)) l.

End Js.

Import Js.

(** ** Data model (types.ts and the component's state) *)

Inductive Sender := user | model.

Record TranscriptionEntry := mkEntry {
  id : jsstring;
  sender : Sender;
  text : jsstring;
  timestamp : Z
}.

Record LiveSessionState := mkSessionState {
  isActive : bool;
  isConnecting : bool;
  error : option jsstring
}.

(** Browser objects (audio contexts, the media stream, the session promise,
    buffer source nodes) are handles: each [new] or [create...] takes the next
    unused natural number. *)
Definition handle := nat.

Record AudioContexts := mkContexts { input : handle; output : handle }.

(** Calls made on browser objects, in the order they are made. *)
Inductive effect :=
| ConsoleError
| SessionClose (session : handle)
| TrackStop (stream : handle)
| ContextClose (ctx : handle)
| SourceStart (source ctx : handle) (duration when : Q)
| SourceStop (source : handle).

(** The part of [onmessage] after [await decodeAudioData(...)]: the output
    context captured before the await, the bytes being decoded and the
    [interrupted] flag of the message, which is tested after the await. *)
Record Pending := mkPending {
  p_ctx : handle;
  p_data : list Z;
  p_interrupted : bool
}.

Record App := mkApp {
  (* useState *)
  entries : list TranscriptionEntry;
  currentInput : jsstring;
  currentOutput : jsstring;
  sessionState : LiveSessionState;
  (* useRef *)
  nextStartTimeRef : Q;
  audioContextsRef : option AudioContexts;
  sourcesRef : list handle;
  streamRef : option handle;
  sessionPromiseRef : option handle;
  (* the world around the component *)
  inFlight : list Pending;
  allocated : nat;
  uuidCalls : nat;
  nowCalls : nat;
  trace : list effect
}.

Definition idle : LiveSessionState := mkSessionState false false None.

Definition init : App :=
  mkApp [] [] [] idle 0%Q None [] None None [] 0%nat 0%nat 0%nat [].

Definition setEntries v (s : App) : App :=
  mkApp v (currentInput s) (currentOutput s) (sessionState s) (nextStartTimeRef s)
    (audioContextsRef s) (sourcesRef s) (streamRef s) (sessionPromiseRef s)
    (inFlight s) (allocated s) (uuidCalls s) (nowCalls s) (trace s).
Definition setCurrentInput v (s : App) : App :=
  mkApp (entries s) v (currentOutput s) (sessionState s) (nextStartTimeRef s)
    (audioContextsRef s) (sourcesRef s) (streamRef s) (sessionPromiseRef s)
    (inFlight s) (allocated s) (uuidCalls s) (nowCalls s) (trace s).
Definition setCurrentOutput v (s : App) : App :=
  mkApp (entries s) (currentInput s) v (sessionState s) (nextStartTimeRef s)
    (audioContextsRef s) (sourcesRef s) (streamRef s) (sessionPromiseRef s)
    (inFlight s) (allocated s) (uuidCalls s) (nowCalls s) (trace s).
Definition setSessionState v (s : App) : App :=
  mkApp (entries s) (currentInput s) (currentOutput s) v (nextStartTimeRef s)
    (audioContextsRef s) (sourcesRef s) (streamRef s) (sessionPromiseRef s)
    (inFlight s) (allocated s) (uuidCalls s) (nowCalls s) (trace s).
Definition setNextStartTime v (s : App) : App :=
  mkApp (entries s) (currentInput s) (currentOutput s) (sessionState s) v
    (audioContextsRef s) (sourcesRef s) (streamRef s) (sessionPromiseRef s)
    (inFlight s) (allocated s) (uuidCalls s) (nowCalls s) (trace s).
Definition setAudioContexts v (s : App) : App :=
  mkApp (entries s) (currentInput s) (currentOutput s) (sessionState s) (nextStartTimeRef s)
    v (sourcesRef s) (streamRef s) (sessionPromiseRef s)
    (inFlight s) (allocated s) (uuidCalls s) (nowCalls s) (trace s).
Definition setSources v (s : App) : App :=
  mkApp (entries s) (currentInput s) (currentOutput s) (sessionState s) (nextStartTimeRef s)
    (audioContextsRef s) v (streamRef s) (sessionPromiseRef s)
    (inFlight s) (allocated s) (uuidCalls s) (nowCalls s) (trace s).
Definition setStream v (s : App) : App :=
  mkApp (entries s) (currentInput s) (currentOutput s) (sessionState s) (nextStartTimeRef s)
    (audioContextsRef s) (sourcesRef s) v (sessionPromiseRef s)
    (inFlight s) (allocated s) (uuidCalls s) (nowCalls s) (trace s).
Definition setSessionPromise v (s : App) : App :=
  mkApp (entries s) (currentInput s) (currentOutput s) (sessionState s) (nextStartTimeRef s)
    (audioContextsRef s) (sourcesRef s) (streamRef s) v
    (inFlight s) (allocated s) (uuidCalls s) (nowCalls s) (trace s).
Definition setInFlight v (s : App) : App :=
  mkApp (entries s) (currentInput s) (currentOutput s) (sessionState s) (nextStartTimeRef s)
    (audioContextsRef s) (sourcesRef s) (streamRef s) (sessionPromiseRef s)
    v (allocated s) (uuidCalls s) (nowCalls s) (trace s).
Definition alloc (n : nat) (s : App) : App :=
  mkApp (entries s) (currentInput s) (currentOutput s) (sessionState s) (nextStartTimeRef s)
    (audioContextsRef s) (sourcesRef s) (streamRef s) (sessionPromiseRef s)
    (inFlight s) (n + allocated s) (uuidCalls s) (nowCalls s) (trace s).
Definition tickCalls (s : App) : App :=
  mkApp (entries s) (currentInput s) (currentOutput s) (sessionState s) (nextStartTimeRef s)
    (audioContextsRef s) (sourcesRef s) (streamRef s) (sessionPromiseRef s)
    (inFlight s) (allocated s) (S (uuidCalls s)) (S (nowCalls s)) (trace s).
Definition emit (es : list effect) (s : App) : App :=
  mkApp (entries s) (currentInput s) (currentOutput s) (sessionState s) (nextStartTimeRef s)
    (audioContextsRef s) (sourcesRef s) (streamRef s) (sessionPromiseRef s)
    (inFlight s) (allocated s) (uuidCalls s) (nowCalls s) (trace s ++ es).

(** The fields of a [LiveServerMessage] that [onmessage] reads.
    [inputTranscription] and [outputTranscription] are [Some t] when the
    object is present, [t] being its optional [text]; [inlineData] is the value
    of [serverContent?.modelTurn?.parts[0]?.inlineData?.data]. *)
Record LiveServerMessage := mkMessage {
  inputTranscription : option (option jsstring);
  outputTranscription : option (option jsstring);
  turnComplete : bool;
  inlineData : option jsstring;
  interrupted : bool
}.

(** What the component takes from its surroundings.  [decode] is the base64
    decoder of ./services/audioUtils, which is not among the sources: it is a
    parameter, [None] standing for the exception it raises on a malformed
    payload.  [randomUUID k] and [Date_now k] are the results of the [k]-th
    call of [crypto.randomUUID()] and of [Date.now()]. *)
Record Host := mkHost {
  decode : jsstring -> option (list Z);
  API_KEY : option jsstring;
  randomUUID : nat -> jsstring;
  Date_now : nat -> Z
}.

(** How a handler ends: it returns (or parks at an [await]), or an exception
    escapes it, or escapes a promise it started and did not await. *)
Inductive completion := Returned | Threw.

Definition Handler := App -> App * completion.

Definition ret (f : App -> App) : Handler := fun s => (f s, Returned).

Definition andThen (h k : Handler) : Handler :=
  fun s => match h s with
           | (s', Returned) => k s'
           | (s', Threw) => (s', Threw)
           end.

Notation "h ;; k" := (andThen h k) (at level 61, right associativity).

(** External calls of [cleanupSession] that can fail: awaiting the session
    promise (it rejects when the connection could not be made),
    [session.close()], and closing either audio context.
    [MediaStreamTrack.stop()] and [stop()] on a started source node do not
    throw. *)
Record Faults := mkFaults {
  sessionPromise_rejects : bool;
  session_close_throws : bool;
  input_close_rejects : bool;
  output_close_rejects : bool
}.

Definition noFaults : Faults := mkFaults false false false false.

(** [None]: the call succeeds; [Some msg]: it throws an error with that
    message. *)
Definition failure := option jsstring.

Section Controller.

Variable host : Host.

Definition addEntry (who : Sender) (txt : jsstring) (s : App) : App :=
  if truthy (trim txt) then
    tickCalls
      (setEntries
         (entries s ++ [mkEntry (randomUUID host (uuidCalls s)) who txt
                                (Date_now host (nowCalls s))]) s)
  else s.

(** Lines 138-140, and the same three statements at lines 51-53. *)
Definition interrupt (s : App) : App :=
  setNextStartTime 0%Q
    (setSources [] (emit (map SourceStop (sourcesRef s)) s)).

Definition closeTransport (f : Faults) : Handler := fun s =>
  match sessionPromiseRef s with
  | Some session =>
      if sessionPromise_rejects f then (s, Threw)
      else if session_close_throws f then (s, Threw)
      else (setSessionPromise None (emit [SessionClose session] s), Returned)
  | None => (s, Returned)
  end.

Definition stopMicrophone : Handler := fun s =>
  match streamRef s with
  | Some stream => (setStream None (emit [TrackStop stream] s), Returned)
  | None => (s, Returned)
  end.

Definition releaseContexts (f : Faults) : Handler := fun s =>
  match audioContextsRef s with
  | Some ctxs =>
      if input_close_rejects f then (s, Threw)
      else
        let s1 := emit [ContextClose (input ctxs)] s in
        if output_close_rejects f then (s1, Threw)
        else (setAudioContexts None (emit [ContextClose (output ctxs)] s1), Returned)
  | None => (s, Returned)
  end.

Definition resetState (s : App) : App :=
  setCurrentOutput [] (setCurrentInput [] (setSessionState idle s)).

(** [cleanupSession], lines 33-58.  Its three [await]s are not points of
    interleaving here: a teardown runs to its end, or to the call that fails,
    before the next event is handled. *)
Definition cleanupSession (f : Faults) : Handler :=
  closeTransport f ;; stopMicrophone ;; releaseContexts f ;;
  ret interrupt ;; ret resetState.

Definition has_key (k : option jsstring) : bool :=
  match k with Some key => truthy key | None => false end.

(** The [catch] block of [startSession]. *)
Definition startFailed (msg : jsstring) (f : Faults) : Handler := fun s =>
  let shown := if truthy msg then msg else lit "Error starting session" in
  cleanupSession f
    (setSessionState (mkSessionState false false (Some shown))
       (emit [ConsoleError] s)).

(** [startSession], lines 60-170, run as one step; [getUserMedia] says whether
    the microphone is granted, [f] what may fail in the teardown of the
    [catch] block. *)
Definition startSession (getUserMedia : failure) (f : Faults) : Handler := fun s =>
  let s1 := setSessionState
              (mkSessionState (isActive (sessionState s)) true None) s in
  if negb (has_key (API_KEY host)) then
    startFailed (lit "API Key not found") f s1
  else
    let s2 := setAudioContexts
                (Some (mkContexts (allocated s1) (S (allocated s1))))
                (alloc 2 s1) in
    match getUserMedia with
    | Some msg => startFailed msg f s2
    | None =>
        let s3 := setStream (Some (allocated s2)) (alloc 1 s2) in
        (setSessionPromise (Some (allocated s3)) (alloc 1 s3), Returned)
    end.

Definition toggleSession (getUserMedia : failure) (f : Faults) : Handler := fun s =>
  if isActive (sessionState s) || isConnecting (sessionState s)
  then cleanupSession f s
  else startSession getUserMedia f s.

(** [onopen]; the capture chain it wires to the microphone is outside the
    model. *)
Definition onopen (s : App) : App :=
  setSessionState (mkSessionState true false None) s.

(** Lines 100-106. *)
Definition onTranscription (m : LiveServerMessage) (s : App) : App :=
  match inputTranscription m with
  | Some t => setCurrentInput (currentInput s ++ toString t) s
  | None =>
      match outputTranscription m with
      | Some t => setCurrentOutput (currentOutput s ++ toString t) s
      | None => s
      end
  end.

(** Lines 109-116, the body of [if (turnComplete)]: the two updaters run in
    the order they were queued. *)
Definition completeTurn (s : App) : App :=
  let s1 := setCurrentInput []
              (if truthy (currentInput s) then addEntry user (currentInput s) s
               else s) in
  setCurrentOutput []
    (if truthy (currentOutput s1) then addEntry model (currentOutput s1) s1
     else s1).

(** Lines 137-141. *)
Definition onInterrupted (flag : bool) (s : App) : App :=
  if flag then interrupt s else s.

(** Lines 119-141 up to the [await] of line 125.  [decode] runs before the
    call of [decodeAudioData] and throws in the handler itself; the decode of
    the bytes is then in flight until [decodeSettled]. *)
Definition onAudio (m : LiveServerMessage) (currentTime : Q) : Handler := fun s =>
  match inlineData m, audioContextsRef s with
  | Some base64Audio, Some ctxs =>
      if truthy base64Audio then
        let s1 := setNextStartTime (Qmax (nextStartTimeRef s) currentTime) s in
        match decode host base64Audio with
        | None => (s1, Threw)
        | Some bytes =>
            (setInFlight
               (inFlight s1 ++ [mkPending (output ctxs) bytes (interrupted m)]) s1,
             Returned)
        end
      else (onInterrupted (interrupted m) s, Returned)
  | _, _ => (onInterrupted (interrupted m) s, Returned)
  end.

(** Lines 99-117, "Handle Transcription". *)
Definition handleTranscription (m : LiveServerMessage) (s : App) : App :=
  let s1 := onTranscription m s in
  if turnComplete m then completeTurn s1 else s1.

Definition onmessage (m : LiveServerMessage) (currentTime : Q) : Handler := fun s =>
  onAudio m currentTime (handleTranscription m s).

Definition remove_nth {A} (k : nat) (l : list A) : list A :=
  firstn k l ++ skipn (S k) l.

(** Lines 126-141, run when the decode awaited at line 125 settles. *)
Definition resume (p : Pending) : Handler := fun s =>
  match Codec.decodeToAudioBuffer (p_data p) 24000 1 with
  | None => (s, Threw)
  | Some audioBuffer =>
      let source := allocated s in
      let s1 := alloc 1 s in
      let s2 := emit [SourceStart source (p_ctx p) (Codec.duration audioBuffer)
                        (nextStartTimeRef s1)] s1 in
      let s3 := setNextStartTime
                  (nextStartTimeRef s2 + Codec.duration audioBuffer)%Q s2 in
      let s4 := setSources (set_add source (sourcesRef s3)) s3 in
      (onInterrupted (p_interrupted p) s4, Returned)
  end.

Definition decodeSettled (k : nat) : Handler := fun s =>
  match nth_error (inFlight s) k with
  | Some p => resume p (setInFlight (remove_nth k (inFlight s)) s)
  | None => (s, Returned)
  end.

(** The listener of line 129. *)
Definition ended (source : handle) (s : App) : App :=
  setSources (set_delete source (sourcesRef s)) s.

Definition onerror (f : Faults) : Handler := fun s =>
  cleanupSession f
    (setSessionState
       (mkSessionState (isActive (sessionState s)) (isConnecting (sessionState s))
          (Some (lit "Connection failed. Please try again.")))
       (emit [ConsoleError] s)).

Definition onclose (f : Faults) : Handler := cleanupSession f.

(** Everything that can happen to the component. *)
Inductive event :=
| Click (getUserMedia : failure) (f : Faults)
| OnOpen
| OnMessage (m : LiveServerMessage) (currentTime : Q)
| DecodeSettled (k : nat)
| Ended (source : handle)
| OnError (f : Faults)
| OnClose (f : Faults).

Definition handleEvent (e : event) : Handler :=
  match e with
  | Click g f => toggleSession g f
  | OnOpen => ret onopen
  | OnMessage m t => onmessage m t
  | DecodeSettled k => decodeSettled k
  | Ended src => ret (ended src)
  | OnError f => onerror f
  | OnClose f => onclose f
  end.

Definition step (e : event) (s : App) : App := fst (handleEvent e s).

(** An exception that escapes one handler does not stop the next event from
    being delivered. *)
Definition run (es : list event) (s : App) : App :=
  fold_left (fun s e => step e s) es s.

End Controller.

(** ** Vocabulary of the properties *)

(** The chunks handed to [source.start], as (start time, duration), in the
    order of the calls. *)
Definition scheduled (e : effect) : list (Q * Q) :=
  match e with
  | SourceStart _ _ d w => [(w, d)]
  | _ => []
  end.

Definition schedule (s : App) : list (Q * Q) := flat_map scheduled (trace s).

(** [b] starts no earlier than [a] ends. *)
Definition follows (a b : Q * Q) : Prop := (fst a + snd a <= fst b)%Q.

(** The chunks scheduled so far do not overlap and end at or before the
    cursor, and no decode in flight belongs to a message that also carries
    [interrupted]. *)
Definition cursor_covers (s : App) : Prop :=
  ForallOrdPairs follows (schedule s) /\
  Forall (fun c => (fst c + snd c <= nextStartTimeRef s)%Q) (schedule s) /\
  Forall (fun p => p_interrupted p = false) (inFlight s).

(** Events that neither interrupt nor tear down. *)
Definition quiet (e : event) : bool :=
  match e with
  | OnOpen | DecodeSettled _ | Ended _ => true
  | OnMessage m _ => negb (interrupted m)
  | Click _ _ | OnError _ | OnClose _ => false
  end.

(** The string has a character that is not white space. *)
Definition nonblank (t : jsstring) : bool :=
  existsb (fun c => negb (isWhiteSpace c)) t.

(** The entry a buffer is finalized into when something is left of it after
    trimming, made with the [k]-th UUID and the [n]-th clock reading. *)
Definition finalized (host : Host) (who : Sender) (buffer : jsstring) (k n : nat)
  : list TranscriptionEntry :=
  if truthy (trim buffer)
  then [mkEntry (randomUUID host k) who buffer (Date_now host n)]
  else [].

Definition userDelta (t : string) : LiveServerMessage :=
  mkMessage (Some (Some (lit t))) None false None false.

Definition turnCompleteMessage : LiveServerMessage :=
  mkMessage None None true None false.

Definition interruptedMessage : LiveServerMessage :=
  mkMessage None None false None true.

Definition audioMessage (base64Audio : jsstring) : LiveServerMessage :=
  mkMessage None None false (Some base64Audio) false.

Definition unit_range (s : Q) : Prop := (-1 <= s <= 1)%Q.

(** Encoding then decoding gives back as many samples, each within [eps] of
    the original. *)
Definition roundtrip_within (eps : Q) : Prop :=
  forall (samples : list Q) (rate channels : Z),
    Forall unit_range samples ->
    exists buf,
      Codec.decodeToAudioBuffer (Codec.encode samples) rate channels = Some buf /\
      List.length (Codec.channelData buf) = List.length samples /\
      Forall2 (fun s d => (Qabs (d - s) <= eps)%Q) samples (Codec.channelData buf).

Definition no_session (s : App) : Prop :=
  sessionPromiseRef s = None /\ streamRef s = None /\ audioContextsRef s = None.

Definition fault_free (f : Faults) : Prop := f = noFaults.

(** The calls a complete teardown makes, and the state it leaves. *)
Definition teardownEffects (s : App) : list effect :=
  match sessionPromiseRef s with Some session => [SessionClose session] | None => [] end
  ++ match streamRef s with Some stream => [TrackStop stream] | None => [] end
  ++ match audioContextsRef s with
     | Some ctxs => [ContextClose (input ctxs); ContextClose (output ctxs)]
     | None => []
     end
  ++ map SourceStop (sourcesRef s).

Definition tornDown (s : App) : App :=
  mkApp (entries s) [] [] idle 0%Q None [] None None
        (inFlight s) (allocated s) (uuidCalls s) (nowCalls s)
        (trace s ++ teardownEffects s).

(** Nothing was scheduled, stopped or closed, and the session state and the
    session's resources are what they were. *)
Definition contained (s s' : App) : Prop :=
  trace s' = trace s /\ sourcesRef s' = sourcesRef s /\
  sessionState s' = sessionState s /\ audioContextsRef s' = audioContextsRef s /\
  streamRef s' = streamRef s /\ sessionPromiseRef s' = sessionPromiseRef s.

(** The steps of [cleanupSession] from its fourth statement on did not run. *)
Definition not_reset (s s' : App) : Prop :=
  sessionState s' = sessionState s /\ currentInput s' = currentInput s /\
  currentOutput s' = currentOutput s /\ sourcesRef s' = sourcesRef s /\
  nextStartTimeRef s' = nextStartTimeRef s /\
  audioContextsRef s' = audioContextsRef s.

Definition allFaults : Faults := mkFaults true true true true.

(** What the handlers of transcript text never touch: the refs, the session
    state, the decodes in flight and the effect trace. *)
Definition untouched (s : App) :=
  (nextStartTimeRef s, audioContextsRef s, sourcesRef s, streamRef s,
   sessionPromiseRef s, inFlight s, trace s, sessionState s, allocated s).

(** Call-by-value evaluation of the record updates; to be used on a state
    whose fields are known. *)
Ltac setters :=
  cbv beta iota zeta delta
    [setEntries setCurrentInput setCurrentOutput setSessionState
     setNextStartTime setAudioContexts setSources setStream
     setSessionPromise setInFlight alloc tickCalls emit
     entries currentInput currentOutput sessionState nextStartTimeRef
     audioContextsRef sourcesRef streamRef sessionPromiseRef inFlight
     allocated uuidCalls nowCalls trace].

(** Handler [h] leaves the component [pr] of the state as it was. *)
Definition keeps {A} (pr : App -> A) (h : Handler) : Prop :=
  forall s, pr (fst (h s)) = pr s.

(** A host for the examples.  Its decoder knows the base64 payloads made of
    the letter A only, which encode zero bytes (silence), three for every four
    letters, and rejects every other string. *)
Definition demoDecode (s : jsstring) : option (list Z) :=
  if forallb (N.eqb 65) s && Nat.eqb (Nat.modulo (List.length s) 4) 0
  then Some (repeat 0 (3 * Nat.div (List.length s) 4))
  else None.

Definition demoHost : Host :=
  mkHost demoDecode (Some (lit "key")) (fun k => lit "uuid-" ++ [N.of_nat k])
         (fun n => 1700000000000 + Z.of_nat n).

(** A session that was started and opened. *)
Definition activeSession : App :=
  run demoHost [Click None noFaults; OnOpen] init.

(** ** The transcript view (components/TranscriptionView.tsx) *)

(** What the component renders, block by block from top to bottom: the
    "Ready to listen" placeholder, one bubble per entry (keyed by the entry's
    id) and the two streaming bubbles.  A bubble is its alignment class, its
    text and the caption under it; colours and spacing are left out. *)
Inductive alignment := items_end | items_start.

Record bubble := mkBubble {
  align : alignment;
  content : jsstring;
  caption : jsstring
}.

Inductive block :=
| Placeholder
| EntryBlock (key : jsstring) (b : bubble)
| StreamingBlock (b : bubble).

(** Lines 35-51, the body of [entries.map]. *)
Definition entryBlock (entry : TranscriptionEntry) : block :=
  EntryBlock (id entry)
    (mkBubble
       (match sender entry with user => items_end | model => items_start end)
       (text entry)
       (match sender entry with user => lit "You" | model => lit "Gemini" end)).

(** Lines 24-77. *)
Definition TranscriptionView (entries : list TranscriptionEntry)
    (currentInput currentOutput : jsstring) : list block :=
  (if Nat.eqb (List.length entries) 0 && negb (truthy currentInput)
      && negb (truthy currentOutput)
   then [Placeholder] else [])
  ++ map entryBlock entries
  ++ (if truthy currentInput
      then [StreamingBlock (mkBubble items_end (currentInput ++ lit "...")
                                     (lit "Transcribing..."))]
      else [])
  ++ (if truthy currentOutput
      then [StreamingBlock (mkBubble items_start (currentOutput ++ lit "...")
                                     (lit "Gemini is responding..."))]
      else []).

(** The props [App] passes, lines 206-210. *)
Definition transcript (s : App) : list block :=
  TranscriptionView (entries s) (currentInput s) (currentOutput s).

Definition keys (v : list block) : list jsstring :=
  flat_map (fun b => match b with EntryBlock k _ => [k] | _ => [] end) v.

Definition streaming (v : list block) : list bubble :=
  flat_map (fun b => match b with StreamingBlock x => [x] | _ => [] end) v.

(** ** More vocabulary *)

(** The transcript log with the counts of UUIDs drawn and clock readings
    taken. *)
Definition log_part (s : App) : list TranscriptionEntry * nat * nat :=
  (entries s, uuidCalls s, nowCalls s).

(** The log in step with the two counters: entry number [k] carries the
    [k]-th UUID and the [k]-th clock reading. *)
Definition indexed (host : Host) (l : list TranscriptionEntry * nat * nat) : Prop :=
  snd (fst l) = List.length (fst (fst l)) /\
  snd l = List.length (fst (fst l)) /\
  map id (fst (fst l)) = map (randomUUID host) (seq 0 (List.length (fst (fst l)))) /\
  map timestamp (fst (fst l)) = map (Date_now host) (seq 0 (List.length (fst (fst l)))).

(** The text a message appends to the user buffer and to the model buffer
    (lines 100-106: the model's text counts only when the message has no
    [inputTranscription]). *)
Definition inputDelta (m : LiveServerMessage) : jsstring :=
  match inputTranscription m with Some t => toString t | None => [] end.

Definition outputDelta (m : LiveServerMessage) : jsstring :=
  match inputTranscription m, outputTranscription m with
  | None, Some t => toString t
  | _, _ => []
  end.

Definition deliver (mt : LiveServerMessage * Q) : event :=
  OnMessage (fst mt) (snd mt).

(** The source nodes on which [start] and [stop] were called, in order. *)
Definition started (tr : list effect) : list handle :=
  flat_map (fun e => match e with SourceStart src _ _ _ => [src] | _ => [] end) tr.

Definition stopped (tr : list effect) : list handle :=
  flat_map (fun e => match e with SourceStop src => [src] | _ => [] end) tr.

(** Every [stop] in the trace comes after the [start] of the same node;
    [seen] are the nodes started before the trace begins. *)
Fixpoint stops_follow_starts (seen : list handle) (tr : list effect) : bool :=
  match tr with
  | [] => true
  | SourceStart src _ _ _ :: rest => stops_follow_starts (src :: seen) rest
  | SourceStop src :: rest =>
      existsb (Nat.eqb src) seen && stops_follow_starts seen rest
  | _ :: rest => stops_follow_starts seen rest
  end.

(** The session's resources are held in the order they are acquired: no
    session promise without the microphone stream, no stream without the audio
    contexts. *)
Definition resources_nested (s : App) : Prop :=
  (sessionPromiseRef s <> None -> streamRef s <> None) /\
  (streamRef s <> None -> audioContextsRef s <> None).

(** The live set, the allocation counter and the trace agree: the live set has
    no duplicates and holds started, not yet stopped nodes; every node is
    started at most once and stopped at most once, after its start; started
    nodes are allocated ones. *)
Definition live_sound (srcs : list handle) (al : nat) (tr : list effect) : Prop :=
  NoDup srcs /\
  incl srcs (started tr) /\
  (forall x, In x srcs -> ~ In x (stopped tr)) /\
  NoDup (started tr) /\
  NoDup (stopped tr) /\
  incl (stopped tr) (started tr) /\
  Forall (fun x => (x < al)%nat) (started tr) /\
  stops_follow_starts [] tr = true.

Definition playback_sound (s : App) : Prop :=
  live_sound (sourcesRef s) (allocated s) (trace s).

Definition preserves (P : App -> Prop) (h : Handler) : Prop :=
  forall s, P s -> P (fst (h s)).

(** The session is not both active and connecting. *)
Definition phase_exclusive (s : App) : Prop :=
  isActive (sessionState s) && isConnecting (sessionState s) = false.

(** The session state and the three resources the session holds. *)
Definition session_part (s : App) :=
  (sessionState s, sessionPromiseRef s, streamRef s, audioContextsRef s).

Definition session_sound (s : App) : Prop :=
  phase_exclusive s /\ resources_nested s.

(** A finalized bubble shows a text with a character that is not white
    space. *)
Definition bubble_nonblank (b : block) : Prop :=
  match b with
  | EntryBlock _ x => nonblank (content x) = true
  | _ => True
  end.

(** * Properties *)

(** ** The codec: quantization and the round trip *)

Module CodecFacts.
Import Codec.

Lemma signed16_range (n : Z) : -32768 <= signed16 n <= 32767.
Proof.
  unfold signed16.
  pose proof (Z.mod_pos_bound n 65536 eq_refl) as Hm.
  destruct (32768 <=? n mod 65536) eqn:E; cbv zeta; rewrite ?E.
  - apply Z.leb_le in E. lia.
  - apply Z.leb_gt in E. lia.
Qed.

Lemma signed16_id (n : Z) : -32768 <= n <= 32767 -> signed16 n = n.
Proof.
  intros Hn. unfold signed16.
  destruct (Z_lt_le_dec n 0) as [Hneg | Hpos].
  - assert (Hm : n mod 65536 = n + 65536).
    { symmetry. apply (Z.mod_unique n 65536 (-1)); lia. }
    rewrite Hm. destruct (32768 <=? n + 65536) eqn:E.
    + lia.
    + apply Z.leb_gt in E. lia.
  - rewrite Z.mod_small by lia.
    destruct (32768 <=? n) eqn:E.
    + apply Z.leb_le in E. lia.
    + reflexivity.
Qed.

Lemma signed16_mod (n : Z) : signed16 (n mod 65536) = signed16 n.
Proof. unfold signed16. now rewrite Z.mod_mod. Qed.

(** Reading back the two bytes written for [n] gives [n] as a signed
    16-bit value. *)
Lemma int16_bytes_read (n : Z) :
  int16_samples (int16_bytes n) = Some [signed16 n].
Proof.
  unfold int16_bytes. cbn [int16_samples].
  replace ((n mod 65536) mod 256 + 256 * (n mod 65536 / 256)) with (n mod 65536).
  - now rewrite signed16_mod.
  - pose proof (Z.div_mod (n mod 65536) 256). lia.
Qed.

Lemma int16_samples_cons (n : Z) (bytes : list Z) :
  int16_samples (int16_bytes n ++ bytes) =
  match int16_samples bytes with
  | Some l => Some (signed16 n :: l)
  | None => None
  end.
Proof.
  pose proof (int16_bytes_read n) as H.
  unfold int16_bytes in *. cbn [app int16_samples] in *.
  destruct (int16_samples bytes); congruence.
Qed.

Lemma quantize_range (s : Q) : -32768 <= quantize s <= 32767.
Proof. apply signed16_range. Qed.

Lemma int16_samples_encode (samples : list Q) :
  int16_samples (encode samples) = Some (map quantize samples).
Proof.
  induction samples as [| s rest IH]; [reflexivity |].
  unfold encode in *. cbn [flat_map map].
  rewrite int16_samples_cons, IH.
  now rewrite (signed16_id _ (quantize_range s)).
Qed.

(** Decoding the encoding of any samples succeeds and yields, sample by
    sample, the quantized value over 32768. *)
Lemma decode_encode (samples : list Q) (rate channels : Z) :
  decodeToAudioBuffer (encode samples) rate channels =
  Some (mkAudioBuffer (map (fun s => to_float (quantize s)) samples) rate channels).
Proof.
  unfold decodeToAudioBuffer. rewrite int16_samples_encode.
  now rewrite map_map.
Qed.

Lemma truncate_nonneg (x : Q) :
  (0 <= x)%Q ->
  (inject_Z (truncate x) <= x /\ x < inject_Z (truncate x) + 1)%Q.
Proof.
  intros Hx. destruct x as [p q].
  assert (Hp : 0 <= p) by (unfold Qle in Hx; simpl in Hx; lia).
  unfold truncate. cbn [Qnum Qden].
  rewrite Z.quot_div_nonneg by lia.
  change (p / Z.pos q) with (Qfloor (p # q)).
  split; [apply Qfloor_le |].
  pose proof (Qlt_floor (p # q)) as H.
  rewrite inject_Z_plus in H. exact H.
Qed.

Lemma truncate_opp_floor (x : Q) :
  (x <= 0)%Q -> truncate x = - Qfloor (- x).
Proof.
  destruct x as [p q]. intros Hx.
  assert (Hp : p <= 0) by (unfold Qle in Hx; simpl in Hx; lia).
  unfold truncate. cbn [Qnum Qden Qopp Qfloor].
  rewrite <- (Z.quot_div_nonneg (- p)) by lia.
  rewrite Z.quot_opp_l by lia. lia.
Qed.

Lemma truncate_nonpos (x : Q) :
  (x <= 0)%Q ->
  (x <= inject_Z (truncate x) /\ inject_Z (truncate x) < x + 1)%Q.
Proof.
  intros Hx. rewrite (truncate_opp_floor x Hx).
  pose proof (Qfloor_le (- x)) as Hlo.
  pose proof (Qlt_floor (- x)) as Hhi.
  rewrite inject_Z_plus in Hhi. rewrite inject_Z_opp.
  change (inject_Z 1) with 1%Q in Hhi.
  split; lra.
Qed.

Lemma clamp_in_range (s : Q) : (-1 <= s <= 1)%Q -> (clamp s == s)%Q.
Proof.
  intros [Hlo Hhi]. unfold clamp.
  rewrite (Q.min_r 1 s Hhi). apply Q.max_r. exact Hlo.
Qed.

Lemma scale_clamp (s : Q) :
  (-1 <= s <= 1)%Q ->
  (s < 0 /\ scale (clamp s) == s * 32768)%Q \/
  (0 <= s /\ scale (clamp s) == s * 32767)%Q.
Proof.
  intros Hs. pose proof (clamp_in_range s Hs) as E.
  unfold scale. destruct (Qlt_le_dec (clamp s) 0) as [H | H]; rewrite E in H.
  - left. split; [exact H | now rewrite E].
  - right. split; [exact H | now rewrite E].
Qed.

Lemma to_float_mult (n : Z) : (to_float n == inject_Z n * (1 # 32768))%Q.
Proof. reflexivity. Qed.

(** The error of one sample: a negative sample is rounded up by less than one
    step; a non-negative one is scaled by 32767 and read back over 32768, and
    comes back lower by less than two steps. *)
Lemma quantize_error (s : Q) :
  (-1 <= s <= 1)%Q ->
  (s < 0 -> 0 <= to_float (quantize s) - s < 1 # 32768)%Q /\
  (0 <= s -> 0 <= s - to_float (quantize s) < 2 # 32768)%Q.
Proof.
  intros Hs. rewrite to_float_mult. unfold quantize, ToInt16.
  destruct (scale_clamp s Hs) as [[Hneg E] | [Hpos E]].
  - destruct (truncate_nonpos (scale (clamp s))) as [Hlo Hhi]; [lra |].
    assert (Hr : -32768 <= truncate (scale (clamp s)) <= 32767).
    { assert (H1 : (inject_Z (-32768) <= inject_Z (truncate (scale (clamp s))))%Q)
        by (change (inject_Z (-32768)) with (-32768)%Q; lra).
      assert (H2 : (inject_Z (truncate (scale (clamp s))) < inject_Z 1)%Q)
        by (change (inject_Z 1) with 1%Q; lra).
      rewrite <- Zle_Qle in H1. rewrite <- Zlt_Qlt in H2. lia. }
    rewrite (signed16_id _ Hr). split; intros; lra.
  - destruct (truncate_nonneg (scale (clamp s))) as [Hlo Hhi]; [lra |].
    assert (Hr : -32768 <= truncate (scale (clamp s)) <= 32767).
    { assert (H1 : (inject_Z (-1) < inject_Z (truncate (scale (clamp s))))%Q)
        by (change (inject_Z (-1)) with (-1)%Q; lra).
      assert (H2 : (inject_Z (truncate (scale (clamp s))) <= inject_Z 32767)%Q)
        by (change (inject_Z 32767) with 32767%Q; lra).
      rewrite <- Zlt_Qlt in H1. rewrite <- Zle_Qle in H2. lia. }
    rewrite (signed16_id _ Hr). split; intros; lra.
Qed.

End CodecFacts.

(** C2, as stated, fails: the sample 1 - 3/2^17 (a [Float32] value) is encoded
    as 32766 and comes back as 32766/32768, which is 1.25 steps below it. *)
Lemma roundtrip_one_step_fails : ~ roundtrip_within (1 # 32768).
Proof.
  intros H.
  destruct (H [131069 # 131072]%Q 24000 1) as [buf [E [_ F]]].
  - repeat constructor; unfold Qle; simpl; lia.
  - vm_compute in E. injection E as <-. cbn [Codec.channelData] in F.
    inversion F as [| ? ? ? ? Hd _]; subst.
    vm_compute in Hd. apply Hd. reflexivity.
Qed.

(** The sample is no better off when the encoder rounds to the nearest
    integer instead of truncating. *)
Remark rounding_encodes_the_same :
  Codec.encode_rounding [131069 # 131072]%Q = Codec.encode [131069 # 131072]%Q.
Proof. reflexivity. Qed.

(** C2 (amended): for samples in [-1,1], decoding the encoding succeeds, keeps
    the number of samples, and every sample comes back less than 2/32768 from
    the original, and less than 1/32768 when the original is negative. *)
Theorem roundtrip_within_two_steps (samples : list Q) (rate channels : Z) :
  Forall unit_range samples ->
  exists buf,
    Codec.decodeToAudioBuffer (Codec.encode samples) rate channels = Some buf /\
    List.length (Codec.channelData buf) = List.length samples /\
    Forall2 (fun s d => (Qabs (d - s) < 2 # 32768)%Q /\
                        ((s < 0)%Q -> (Qabs (d - s) < 1 # 32768)%Q))
            samples (Codec.channelData buf).
Proof.
  intros Hs. eexists. split; [apply CodecFacts.decode_encode |].
  cbn [Codec.channelData]. split; [apply length_map |].
  induction Hs as [| s rest Hs _ IH]; cbn [map]; constructor; [| exact IH].
  destruct (CodecFacts.quantize_error s Hs) as [Hneg Hpos].
  split.
  - apply Qabs_Qlt_condition.
    destruct (Qlt_le_dec s 0) as [H | H]; [specialize (Hneg H) | specialize (Hpos H)]; lra.
  - intros H. specialize (Hneg H). apply Qabs_Qlt_condition. lra.
Qed.

Lemma roundtrip_within_two_steps_witness :
  Forall unit_range [1; -1; 131069 # 131072]%Q /\
  exists buf,
    Codec.decodeToAudioBuffer (Codec.encode [1; -1; 131069 # 131072]%Q) 24000 1 = Some buf /\
    List.length (Codec.channelData buf) = 3%nat /\
    Forall2 (fun s d => (Qabs (d - s) < 2 # 32768)%Q /\
                        ((s < 0)%Q -> (Qabs (d - s) < 1 # 32768)%Q))
            [1; -1; 131069 # 131072]%Q (Codec.channelData buf).
Proof.
  assert (H : Forall unit_range [1; -1; 131069 # 131072]%Q).
  { repeat constructor; unfold Qle; simpl; lia. }
  split; [exact H |].
  exact (roundtrip_within_two_steps [1; -1; 131069 # 131072]%Q 24000 1 H).
Defined.

(** ** The session controller *)

Create Rewrite HintDb frame.

Section Frames.

Variable host : Host.

Lemma addEntry_untouched who txt s :
  untouched (addEntry host who txt s) = untouched s.
Proof. unfold addEntry. destruct (truthy (trim txt)); reflexivity. Qed.

Lemma onTranscription_untouched m s :
  untouched (onTranscription m s) = untouched s.
Proof.
  unfold onTranscription.
  destruct (inputTranscription m); [reflexivity |].
  destruct (outputTranscription m); reflexivity.
Qed.

Lemma completeTurn_untouched s :
  untouched (completeTurn host s) = untouched s.
Proof.
  unfold completeTurn. cbv zeta.
  set (s1 := setCurrentInput [] _).
  assert (H1 : untouched s1 = untouched s).
  { subst s1. destruct (truthy (currentInput s)); [| reflexivity].
    rewrite <- (addEntry_untouched user (currentInput s) s). reflexivity. }
  rewrite <- H1.
  destruct (truthy (currentOutput s1)); [| reflexivity].
  rewrite <- (addEntry_untouched model (currentOutput s1) s1). reflexivity.
Qed.

Lemma handleTranscription_untouched m s :
  untouched (handleTranscription host m s) = untouched s.
Proof.
  unfold handleTranscription. cbv zeta.
  destruct (turnComplete m).
  - now rewrite completeTurn_untouched, onTranscription_untouched.
  - apply onTranscription_untouched.
Qed.

Ltac project :=
  intros;
  match goal with
  | |- _ (_ _ ?m ?s) = _ =>
      pose proof (handleTranscription_untouched m s) as H;
      unfold untouched in H; congruence
  end.

Lemma handleTranscription_nextStartTime m s :
  nextStartTimeRef (handleTranscription host m s) = nextStartTimeRef s.
Proof. project. Qed.

Lemma handleTranscription_trace m s :
  trace (handleTranscription host m s) = trace s.
Proof. project. Qed.

Lemma handleTranscription_inFlight m s :
  inFlight (handleTranscription host m s) = inFlight s.
Proof. project. Qed.

Lemma handleTranscription_sources m s :
  sourcesRef (handleTranscription host m s) = sourcesRef s.
Proof. project. Qed.

Lemma handleTranscription_contexts m s :
  audioContextsRef (handleTranscription host m s) = audioContextsRef s.
Proof. project. Qed.

Lemma handleTranscription_stream m s :
  streamRef (handleTranscription host m s) = streamRef s.
Proof. project. Qed.

Lemma handleTranscription_session m s :
  sessionPromiseRef (handleTranscription host m s) = sessionPromiseRef s.
Proof. project. Qed.

Lemma handleTranscription_sessionState m s :
  sessionState (handleTranscription host m s) = sessionState s.
Proof. project. Qed.

End Frames.

#[global] Hint Rewrite handleTranscription_nextStartTime handleTranscription_trace
  handleTranscription_inFlight handleTranscription_sources
  handleTranscription_contexts handleTranscription_stream
  handleTranscription_session handleTranscription_sessionState : frame.

(** *** Scheduling *)

Lemma ForallOrdPairs_snoc {A} (R : A -> A -> Prop) (l : list A) (x : A) :
  ForallOrdPairs R l -> Forall (fun y => R y x) l -> ForallOrdPairs R (l ++ [x]).
Proof.
  induction 1 as [| a l Ha Hl IH]; intros Hx; cbn [app].
  - constructor; constructor.
  - inversion Hx as [| ? ? Hax Hlx]; subst. constructor.
    + apply Forall_app. split; [exact Ha | constructor; [exact Hax | constructor]].
    + apply IH. exact Hlx.
Qed.

Lemma duration_nonneg (bytes : list Z) (buf : Codec.AudioBuffer) :
  Codec.decodeToAudioBuffer bytes 24000 1 = Some buf -> (0 <= Codec.duration buf)%Q.
Proof.
  unfold Codec.decodeToAudioBuffer.
  destruct (Codec.int16_samples bytes); [| discriminate].
  intros E. injection E as <-. unfold Codec.duration, Qle. simpl. lia.
Qed.

Lemma cursor_covers_same (s s' : App) :
  trace s' = trace s -> inFlight s' = inFlight s ->
  (nextStartTimeRef s <= nextStartTimeRef s')%Q ->
  cursor_covers s -> cursor_covers s'.
Proof.
  unfold cursor_covers, schedule. intros -> -> Hn (Ho & Hc & Hp).
  repeat split; try assumption.
  eapply Forall_impl; [| exact Hc]. cbv beta. intros c Hcc. lra.
Qed.

Section Scheduling.

Variable host : Host.

Lemma onAudio_quiet m t s :
  interrupted m = false -> cursor_covers s ->
  cursor_covers (fst (onAudio host m t s)) /\
  (nextStartTimeRef s <= nextStartTimeRef (fst (onAudio host m t s)))%Q.
Proof.
  intros Hq Hs. unfold onAudio, onInterrupted. rewrite Hq.
  destruct (inlineData m) as [b64 |]; [| split; [exact Hs | cbn [fst]; lra]].
  destruct (audioContextsRef s) as [ctxs |]; [| split; [exact Hs | cbn [fst]; lra]].
  destruct (truthy b64); [| split; [exact Hs | cbn [fst]; lra]].
  pose proof (Q.le_max_l (nextStartTimeRef s) t) as Hmax.
  destruct (decode host b64) as [bytes |]; cbn [fst].
  - split; [| exact Hmax].
    destruct Hs as (Ho & Hc & Hp). repeat split.
    + exact Ho.
    + eapply Forall_impl; [| exact Hc]. cbv beta.
      intros c Hcc. cbn [nextStartTimeRef setInFlight setNextStartTime]. lra.
    + cbn [inFlight setInFlight setNextStartTime]. apply Forall_app.
      split; [exact Hp | constructor; [reflexivity | constructor]].
  - split; [| exact Hmax].
    apply (cursor_covers_same s); [reflexivity | reflexivity | exact Hmax | exact Hs].
Qed.

Lemma resume_quiet p s :
  p_interrupted p = false -> cursor_covers s ->
  cursor_covers (fst (resume p s)) /\
  (nextStartTimeRef s <= nextStartTimeRef (fst (resume p s)))%Q.
Proof.
  intros Hq (Ho & Hc & Hp). unfold resume, onInterrupted. rewrite Hq.
  destruct (Codec.decodeToAudioBuffer (p_data p) 24000 1) as [buf |] eqn:E;
    cbn [fst]; [| split; [repeat split; assumption | lra]].
  pose proof (duration_nonneg _ _ E) as Hd.
  unfold cursor_covers, schedule.
  cbn [trace inFlight nextStartTimeRef setSources setNextStartTime emit alloc].
  rewrite flat_map_app. cbn [flat_map scheduled app].
  split; [repeat split | lra].
  - apply ForallOrdPairs_snoc; [exact Ho |].
    eapply Forall_impl; [| exact Hc]. intros c Hcc. unfold follows. exact Hcc.
  - apply Forall_app. split.
    + eapply Forall_impl; [| exact Hc]. cbv beta. intros c Hcc. lra.
    + constructor; [cbn [fst snd]; lra | constructor].
  - exact Hp.
Qed.

Lemma Forall_remove_nth {A} (P : A -> Prop) (k : nat) (l : list A) :
  Forall P l -> Forall P (remove_nth k l).
Proof.
  intros H. revert k. induction H as [| a l Ha Hl IH]; intros [| k].
  - constructor.
  - constructor.
  - exact Hl.
  - change (remove_nth (S k) (a :: l)) with (a :: remove_nth k l).
    constructor; [exact Ha | apply IH].
Qed.

Lemma step_quiet e s :
  quiet e = true -> cursor_covers s ->
  cursor_covers (step host e s) /\
  (nextStartTimeRef s <= nextStartTimeRef (step host e s))%Q.
Proof.
  intros Hq Hs. destruct e as [g f | | m t | k | src | f | f];
    try discriminate; unfold step, handleEvent.
  - split; [| cbn; lra].
    apply (cursor_covers_same s); [reflexivity | reflexivity | cbn; lra | exact Hs].
  - cbn [quiet] in Hq. apply negb_true_iff in Hq. unfold onmessage.
    destruct (onAudio_quiet m t (handleTranscription host m s) Hq) as [Hc Hn].
    + apply (cursor_covers_same s); autorewrite with frame;
        [reflexivity | reflexivity | lra | exact Hs].
    + split; [exact Hc |]. autorewrite with frame in Hn. exact Hn.
  - unfold decodeSettled.
    destruct (nth_error (inFlight s) k) as [p |] eqn:E; [| split; [exact Hs | cbn; lra]].
    destruct Hs as (Ho & Hc & Hp).
    assert (Hpq : p_interrupted p = false).
    { apply nth_error_In in E. exact (proj1 (Forall_forall _ _) Hp p E). }
    destruct (resume_quiet p (setInFlight (remove_nth k (inFlight s)) s) Hpq)
      as [Hc' Hn].
    + repeat split; try assumption.
      cbn [inFlight setInFlight]. apply Forall_remove_nth. exact Hp.
    + split; [exact Hc' | exact Hn].
  - split; [| cbn; lra].
    apply (cursor_covers_same s); [reflexivity | reflexivity | cbn; lra | exact Hs].
Qed.

Lemma run_quiet es s :
  forallb quiet es = true -> cursor_covers s ->
  cursor_covers (run host es s) /\
  (nextStartTimeRef s <= nextStartTimeRef (run host es s))%Q.
Proof.
  revert s. induction es as [| e es IH]; intros s Hq Hs; cbn [run fold_left].
  - split; [exact Hs | lra].
  - cbn [forallb] in Hq. apply andb_true_iff in Hq as [He Hes].
    destruct (step_quiet e s He Hs) as [Hc Hn].
    destruct (IH (step host e s) Hes Hc) as [Hc' Hn'].
    split; [exact Hc' | ]. unfold run in Hn'. lra.
Qed.

Lemma run_app es1 es2 s : run host (es1 ++ es2) s = run host es2 (run host es1 s).
Proof. unfold run. apply fold_left_app. Qed.

End Scheduling.

(** C1: along any sequence of events without interruption or teardown (audio
    messages at arbitrary clock times, their decodes settling in any order,
    with payloads of any duration), the cursor never moves back, and every
    chunk is started no earlier than each chunk started before it ends. *)
Theorem scheduling_monotone (host : Host) (s : App) (before after : list event) :
  cursor_covers s ->
  forallb quiet (before ++ after) = true ->
  (nextStartTimeRef (run host before s)
   <= nextStartTimeRef (run host (before ++ after) s))%Q /\
  ForallOrdPairs follows (schedule (run host (before ++ after) s)).
Proof.
  intros Hs Hq. rewrite forallb_app in Hq. apply andb_true_iff in Hq as [Hb Ha].
  rewrite run_app.
  destruct (run_quiet host before s Hb Hs) as [Hc _].
  destruct (run_quiet host after _ Ha Hc) as [Hc' Hn].
  split; [exact Hn | exact (proj1 Hc')].
Qed.

Lemma scheduling_monotone_witness :
  let s := activeSession in
  let before := [OnMessage (audioMessage (lit "AAAAAAAA")) (1 # 2); DecodeSettled 0] in
  let after := [OnMessage (audioMessage (lit "AAAA")) (1 # 4);
                OnMessage (audioMessage (lit "AAAAAAAA")) (1 # 4);
                DecodeSettled 1; DecodeSettled 0] in
  cursor_covers s /\
  forallb quiet (before ++ after) = true /\
  (nextStartTimeRef (run demoHost before s)
   <= nextStartTimeRef (run demoHost (before ++ after) s))%Q /\
  ForallOrdPairs follows (schedule (run demoHost (before ++ after) s)).
Proof.
  intros s before after.
  assert (Hs : cursor_covers s) by (repeat split; vm_compute; constructor).
  assert (Hq : forallb quiet (before ++ after) = true) by reflexivity.
  split; [exact Hs |]. split; [exact Hq |].
  exact (scheduling_monotone demoHost s before after Hs Hq).
Defined.

(** *** Interruption *)

Lemma interrupt_idempotent (s : App) : interrupt (interrupt s) = interrupt s.
Proof.
  destruct s. unfold interrupt. setters. cbn [map]. now rewrite app_nil_r.
Qed.

Lemma onmessage_interrupted (host : Host) (t : Q) (s : App) :
  handleEvent host (OnMessage interruptedMessage t) s = (interrupt s, Returned).
Proof. reflexivity. Qed.

(** C3: whatever happened before, handling an [interrupted] message calls
    [stop] on every source of the live set, in the order of the set, leaves the
    set empty and the cursor at 0, and raises nothing; handling a second one
    right after, on the now empty set, raises nothing and changes nothing. *)
Theorem interruption_clears_playback (host : Host) (s : App) (es : list event) (t t' : Q) :
  let s1 := run host es s in
  let s2 := step host (OnMessage interruptedMessage t) s1 in
  handleEvent host (OnMessage interruptedMessage t) s1 = (interrupt s1, Returned) /\
  trace s2 = trace s1 ++ map SourceStop (sourcesRef s1) /\
  sourcesRef s2 = [] /\
  nextStartTimeRef s2 = 0%Q /\
  handleEvent host (OnMessage interruptedMessage t') s2 = (s2, Returned) /\
  interrupt (interrupt s1) = interrupt s1.
Proof.
  intros s1 s2. subst s2. unfold step.
  rewrite !onmessage_interrupted. cbn [fst].
  rewrite interrupt_idempotent.
  split; [reflexivity |]. split; [reflexivity |]. split; [reflexivity |].
  split; [reflexivity |]. split; reflexivity.
Qed.

(** C9: the interruption handler, and a message that carries nothing but
    [interrupted], leave the transcript entries, both pending buffers and the
    session state as they were. *)
Theorem interruption_frame (host : Host) (s : App) (flag : bool) (t : Q) :
  let s1 := onInterrupted flag s in
  let s2 := step host (OnMessage interruptedMessage t) s in
  (entries s1 = entries s /\ currentInput s1 = currentInput s /\
   currentOutput s1 = currentOutput s /\ sessionState s1 = sessionState s) /\
  (entries s2 = entries s /\ currentInput s2 = currentInput s /\
   currentOutput s2 = currentOutput s /\ sessionState s2 = sessionState s).
Proof.
  cbv zeta. split.
  - destruct flag; repeat split.
  - repeat split.
Qed.

(** *** Turn aggregation *)

Lemma truthy_rev (t : jsstring) : truthy (rev t) = truthy t.
Proof.
  destruct t as [| c t]; [reflexivity |]. cbn [rev truthy].
  destruct (rev t); reflexivity.
Qed.

Lemma nonblank_rev (t : jsstring) : nonblank (rev t) = nonblank t.
Proof.
  unfold nonblank. induction t as [| c t IH]; [reflexivity |].
  cbn [rev existsb]. rewrite existsb_app, IH. cbn [existsb].
  rewrite orb_false_r. apply orb_comm.
Qed.

Lemma nonblank_trimStart (t : jsstring) : nonblank (trimStart t) = nonblank t.
Proof.
  induction t as [| c t IH]; [reflexivity |]. cbn [trimStart].
  destruct (isWhiteSpace c) eqn:E; [| reflexivity].
  rewrite IH. unfold nonblank. cbn [existsb]. now rewrite E.
Qed.

Lemma truthy_trimStart (t : jsstring) : truthy (trimStart t) = nonblank t.
Proof.
  induction t as [| c t IH]; [reflexivity |]. cbn [trimStart].
  unfold nonblank. cbn [existsb].
  destruct (isWhiteSpace c) eqn:E; [exact IH | reflexivity].
Qed.

(** A string survives [trim] exactly when it has a character that is not
    white space. *)
Lemma truthy_trim (t : jsstring) : truthy (trim t) = nonblank t.
Proof.
  unfold trim, trimEnd.
  now rewrite truthy_rev, truthy_trimStart, nonblank_rev, nonblank_trimStart.
Qed.

Lemma trim_falsy (t : jsstring) : truthy t = false -> truthy (trim t) = false.
Proof. destruct t; [reflexivity | discriminate]. Qed.

Section Turns.

Variable host : Host.

Lemma completeTurn_entries (s : App) :
  entries (completeTurn host s) =
  entries s
  ++ finalized host user (currentInput s) (uuidCalls s) (nowCalls s)
  ++ finalized host model (currentOutput s)
       (uuidCalls s
        + List.length (finalized host user (currentInput s) (uuidCalls s) (nowCalls s)))
       (nowCalls s
        + List.length (finalized host user (currentInput s) (uuidCalls s) (nowCalls s))).
Proof.
  destruct s as [es ci co st nst ctxs srcs str ses fl al uc nc tr].
  unfold completeTurn, addEntry, finalized.
  cbn [entries currentInput currentOutput uuidCalls nowCalls].
  destruct (truthy ci) eqn:Ti, (truthy (trim ci)) eqn:Ni;
    try (rewrite (trim_falsy ci Ti) in Ni; discriminate);
    cbn [entries currentInput currentOutput uuidCalls nowCalls tickCalls
         setEntries setCurrentInput setCurrentOutput List.length app];
    rewrite ?Nat.add_0_r, ?Nat.add_1_r;
    (destruct (truthy co) eqn:To, (truthy (trim co)) eqn:No;
     try (rewrite (trim_falsy co To) in No; discriminate);
     cbn [entries tickCalls setEntries app];
     rewrite <- ?app_assoc, ?app_nil_r; reflexivity).
Qed.

Lemma completeTurn_buffers (s : App) :
  currentInput (completeTurn host s) = [] /\ currentOutput (completeTurn host s) = [].
Proof.
  unfold completeTurn. cbv zeta. cbn [currentOutput setCurrentOutput currentInput].
  split; [| reflexivity].
  set (s1 := setCurrentInput [] _).
  assert (H1 : currentInput s1 = []) by reflexivity.
  destruct (truthy (currentOutput s1)); [| exact H1].
  unfold addEntry. destruct (truthy (trim (currentOutput s1))); exact H1.
Qed.

End Turns.

(** C4: [completeTurn] appends, user first and model second, one entry for each
    buffer that has a character other than white space, taking for each a new
    UUID and a new clock reading, appends nothing for the other buffers, and
    leaves both buffers empty.  The deltas "He" and "llo" on the user channel
    followed by a turn completion add the single entry (user, "Hello"); a turn
    completion with both buffers empty adds none. *)
Theorem completeTurn_finalizes (host : Host) (s : App) (t1 t2 t3 : Q) :
  let u := finalized host user (currentInput s) (uuidCalls s) (nowCalls s) in
  let m := finalized host model (currentOutput s)
             (uuidCalls s + List.length u) (nowCalls s + List.length u) in
  let s' := completeTurn host s in
  let empty := setCurrentOutput [] (setCurrentInput [] s) in
  entries s' = entries s ++ u ++ m /\
  currentInput s' = [] /\ currentOutput s' = [] /\
  finalized host user [] (uuidCalls s) (nowCalls s) = [] /\
  entries (run host [OnMessage (userDelta "He") t1; OnMessage (userDelta "llo") t2;
                     OnMessage turnCompleteMessage t3] empty)
  = entries s ++ [mkEntry (randomUUID host (uuidCalls s)) user (lit "Hello")
                          (Date_now host (nowCalls s))] /\
  entries (completeTurn host empty) = entries s.
Proof.
  cbv zeta. split; [apply completeTurn_entries |].
  destruct (completeTurn_buffers host s) as [Hi Ho].
  split; [exact Hi |]. split; [exact Ho |]. split; [reflexivity |].
  destruct s. split; reflexivity.
Qed.

(** *** Entries of the transcript log *)

Lemma keeps_ret {A} (pr : App -> A) (f : App -> App) :
  (forall s, pr (f s) = pr s) -> keeps pr (ret f).
Proof. intros H s. apply H. Qed.

Lemma keeps_andThen {A} (pr : App -> A) (h k : Handler) :
  keeps pr h -> keeps pr k -> keeps pr (h ;; k).
Proof.
  intros Hh Hk s. unfold andThen. specialize (Hh s).
  destruct (h s) as [s' []]; cbn [fst] in *.
  - now rewrite Hk.
  - exact Hh.
Qed.

Section Entries.

Variable host : Host.

Lemma cleanupSession_entries f : keeps entries (cleanupSession f).
Proof.
  unfold cleanupSession. repeat apply keeps_andThen; try (apply keeps_ret; reflexivity).
  - intros s. unfold closeTransport.
    destruct (sessionPromiseRef s), (sessionPromise_rejects f), (session_close_throws f);
      reflexivity.
  - intros s. unfold stopMicrophone. destruct (streamRef s); reflexivity.
  - intros s. unfold releaseContexts.
    destruct (audioContextsRef s), (input_close_rejects f), (output_close_rejects f);
      reflexivity.
Qed.

Lemma startSession_entries g f : keeps entries (startSession host g f).
Proof.
  intros s. unfold startSession, startFailed. cbv zeta.
  destruct (negb (has_key (API_KEY host))); [now rewrite cleanupSession_entries |].
  destruct g; [now rewrite cleanupSession_entries | reflexivity].
Qed.

Lemma onAudio_entries m t : keeps entries (onAudio host m t).
Proof.
  intros s. unfold onAudio, onInterrupted.
  destruct (inlineData m) as [b |], (audioContextsRef s), (interrupted m);
    try reflexivity; destruct (truthy b); try reflexivity;
    destruct (decode host b); reflexivity.
Qed.

Lemma resume_entries p : keeps entries (resume p).
Proof.
  intros s. unfold resume, onInterrupted.
  destruct (Codec.decodeToAudioBuffer (p_data p) 24000 1); [| reflexivity].
  destruct (p_interrupted p); reflexivity.
Qed.

Lemma onTranscription_entries m s : entries (onTranscription m s) = entries s.
Proof.
  unfold onTranscription.
  destruct (inputTranscription m); [reflexivity |].
  destruct (outputTranscription m); reflexivity.
Qed.

Lemma finalized_nonblank who buffer k n :
  Forall (fun e => nonblank (text e) = true) (finalized host who buffer k n).
Proof.
  unfold finalized. rewrite truthy_trim.
  destruct (nonblank buffer) eqn:E; repeat constructor. exact E.
Qed.

Lemma finalized_text who buffer k n :
  map text (finalized host who buffer k n) = filter nonblank [buffer].
Proof.
  unfold finalized. rewrite truthy_trim. cbn [filter].
  destruct (nonblank buffer); reflexivity.
Qed.

Lemma step_entries_nonblank e s :
  Forall (fun x => nonblank (text x) = true) (entries s) ->
  Forall (fun x => nonblank (text x) = true) (entries (step host e s)).
Proof.
  intros H. unfold step. destruct e as [g f | | m t | k | src | f | f]; cbn [handleEvent].
  - unfold toggleSession.
    destruct (isActive (sessionState s) || isConnecting (sessionState s)).
    + now rewrite cleanupSession_entries.
    + now rewrite startSession_entries.
  - exact H.
  - unfold onmessage. rewrite onAudio_entries. unfold handleTranscription. cbv zeta.
    destruct (turnComplete m); [| now rewrite onTranscription_entries].
    rewrite completeTurn_entries, onTranscription_entries.
    repeat (apply Forall_app; split); [exact H | |]; apply finalized_nonblank.
  - unfold decodeSettled. destruct (nth_error (inFlight s) k); [| exact H].
    now rewrite resume_entries.
  - exact H.
  - unfold onerror. now rewrite cleanupSession_entries.
  - unfold onclose. now rewrite cleanupSession_entries.
Qed.

End Entries.

(** C10: every entry of the log has a character that is not white space,
    whatever events the component has handled; and the texts a turn completion
    appends are the buffers themselves (those with such a character), white
    space at either end included. *)
Theorem entries_nonblank_and_verbatim (host : Host) (s : App) (es : list event) :
  Forall (fun e => nonblank (text e) = true) (entries s) ->
  Forall (fun e => nonblank (text e) = true) (entries (run host es s)) /\
  map text (entries (completeTurn host s))
  = map text (entries s) ++ filter nonblank [currentInput s; currentOutput s].
Proof.
  intros H. split.
  - revert s H. induction es as [| e es IH]; intros s H; [exact H |].
    cbn [run fold_left]. apply IH. apply step_entries_nonblank. exact H.
  - rewrite completeTurn_entries, !map_app, !finalized_text.
    cbn [filter]. destruct (nonblank (currentInput s)), (nonblank (currentOutput s));
      reflexivity.
Qed.

Lemma entries_nonblank_and_verbatim_witness :
  let s := setCurrentOutput (lit "   ") (setCurrentInput (lit " Hi ") activeSession) in
  Forall (fun e => nonblank (text e) = true) (entries s) /\
  Forall (fun e => nonblank (text e) = true)
         (entries (run demoHost [OnMessage turnCompleteMessage 0] s)) /\
  map text (entries (completeTurn demoHost s)) = [lit " Hi "].
Proof.
  intros s.
  assert (H : Forall (fun e => nonblank (text e) = true) (entries s)) by constructor.
  split; [exact H |].
  exact (entries_nonblank_and_verbatim demoHost s [OnMessage turnCompleteMessage 0] H).
Defined.

(** *** Teardown *)

Lemma cleanupSession_noFaults (s : App) :
  cleanupSession noFaults s = (tornDown s, Returned).
Proof.
  destruct s as [es ci co st nst ctxs srcs str ses fl al uc nc tr].
  destruct ses, str, ctxs;
    cbv [cleanupSession andThen ret closeTransport stopMicrophone releaseContexts
         interrupt resetState noFaults sessionPromise_rejects session_close_throws
         input_close_rejects output_close_rejects tornDown teardownEffects];
    setters; cbn [app]; rewrite <- ?app_assoc; cbn [app]; rewrite ?app_nil_r;
    reflexivity.
Qed.

Lemma cleanupSession_no_session (f : Faults) (s : App) :
  no_session s -> cleanupSession f s = (tornDown s, Returned).
Proof.
  destruct s as [es ci co st nst ctxs srcs str ses fl al uc nc tr].
  intros (H1 & H2 & H3). cbn in H1, H2, H3. subst.
  cbv [cleanupSession andThen ret closeTransport stopMicrophone releaseContexts
       interrupt resetState tornDown teardownEffects];
    setters; cbn [app]; reflexivity.
Qed.

Lemma tornDown_no_session (s : App) : no_session (tornDown s).
Proof. repeat split. Qed.

Lemma tornDown_idempotent (s : App) : tornDown (tornDown s) = tornDown s.
Proof.
  unfold tornDown at 1. cbn [entries inFlight allocated uuidCalls nowCalls trace tornDown].
  unfold teardownEffects. cbn [sessionPromiseRef streamRef audioContextsRef sourcesRef
                               tornDown map app].
  now rewrite app_nil_r.
Qed.

(** A teardown that raises stops before it reaches the statements that stop
    playback and reset the state. *)
Lemma cleanupSession_threw (f : Faults) (s : App) :
  snd (cleanupSession f s) = Threw -> not_reset s (fst (cleanupSession f s)).
Proof.
  destruct s as [es ci co st nst ctxs srcs str ses fl al uc nc tr].
  destruct f as [[] [] [] []]; destruct ses, str, ctxs;
    cbv [cleanupSession andThen ret closeTransport stopMicrophone releaseContexts
         interrupt resetState sessionPromise_rejects session_close_throws
         input_close_rejects output_close_rejects snd fst];
    setters; intros H; try discriminate H; repeat split.
Qed.

Lemma cleanupSession_returned (f : Faults) (s : App) :
  snd (cleanupSession f s) = Returned -> fst (cleanupSession f s) = tornDown s.
Proof.
  destruct s as [es ci co st nst ctxs srcs str ses fl al uc nc tr].
  destruct f as [[] [] [] []]; destruct ses, str, ctxs;
    cbv [cleanupSession andThen ret closeTransport stopMicrophone releaseContexts
         interrupt resetState sessionPromise_rejects session_close_throws
         input_close_rejects output_close_rejects snd fst tornDown teardownEffects];
    setters; intros H; try discriminate H;
    cbn [app]; rewrite <- ?app_assoc; cbn [app]; rewrite ?app_nil_r; reflexivity.
Qed.

(** C7, as stated, fails: when [session.close()] throws on a live session, the
    teardown stops there; the microphone stream and the audio contexts are
    not released and the session state is not reset. *)
Lemma teardown_stops_at_failing_step :
  let r := cleanupSession (mkFaults false true false false) activeSession in
  snd r = Threw /\ fst r = activeSession /\
  streamRef (fst r) = Some 2%nat /\
  audioContextsRef (fst r) = Some (mkContexts 0%nat 1%nat) /\
  sessionState (fst r) = mkSessionState true false None.
Proof. repeat split. Qed.

(** C7 (amended): a teardown in which no call fails, or which finds no session,
    raises nothing, makes the calls of [teardownEffects] and leaves the state
    [tornDown]: session state idle, both buffers empty, no session resources,
    no live source, cursor at 0.  A second teardown right after it raises
    nothing, whatever could fail, and changes nothing.  A teardown in which a
    call fails stops at that call: playback is not stopped and the state is
    not reset. *)
Theorem teardown_idempotent (s : App) (f f' : Faults) :
  fault_free f \/ no_session s ->
  let s1 := fst (cleanupSession f s) in
  cleanupSession f s = (tornDown s, Returned) /\
  sessionState s1 = idle /\ currentInput s1 = [] /\ currentOutput s1 = [] /\
  no_session s1 /\ sourcesRef s1 = [] /\ nextStartTimeRef s1 = 0%Q /\
  cleanupSession f' s1 = (s1, Returned) /\
  (forall s0 f0, snd (cleanupSession f0 s0) = Threw ->
                 not_reset s0 (fst (cleanupSession f0 s0))).
Proof.
  intros H.
  assert (E : cleanupSession f s = (tornDown s, Returned)).
  { destruct H as [-> | H]; [apply cleanupSession_noFaults |].
    now apply cleanupSession_no_session. }
  cbv zeta. rewrite E. cbn [fst].
  split; [reflexivity |]. split; [reflexivity |]. split; [reflexivity |].
  split; [reflexivity |]. split; [apply tornDown_no_session |].
  split; [reflexivity |]. split; [reflexivity |].
  split; [| intros s0 f0; apply cleanupSession_threw].
  rewrite (cleanupSession_no_session f' _ (tornDown_no_session s)).
  now rewrite tornDown_idempotent.
Qed.

Lemma teardown_idempotent_witness :
  (fault_free noFaults \/ no_session activeSession) /\
  cleanupSession noFaults activeSession = (tornDown activeSession, Returned) /\
  cleanupSession allFaults (tornDown activeSession) = (tornDown activeSession, Returned).
Proof.
  assert (H : fault_free noFaults \/ no_session activeSession) by (left; reflexivity).
  split; [exact H |].
  pose proof (teardown_idempotent activeSession noFaults allFaults H) as T.
  cbv zeta in T.
  destruct T as (E & _ & _ & _ & _ & _ & _ & E' & _).
  rewrite E in E'. cbn [fst] in E'. split; [exact E | exact E'].
Defined.

(** C5: on a live session, [onerror] with a teardown that succeeds ends with
    the session state idle: the message it recorded is gone, and no new
    session has been started. *)
Theorem error_message_erased_by_teardown :
  let r := handleEvent demoHost (OnError noFaults) activeSession in
  snd r = Returned /\
  sessionState (fst r) = idle /\
  error (sessionState (fst r)) = None /\
  sessionPromiseRef (fst r) = None.
Proof. repeat split. Qed.

(** The same holds from every state: whenever the teardown started by
    [onerror] completes, no error message is left. *)
Lemma onerror_leaves_no_message (f : Faults) (s : App) :
  snd (onerror f s) = Returned -> error (sessionState (fst (onerror f s))) = None.
Proof.
  unfold onerror. intros H. now rewrite (cleanupSession_returned _ _ H).
Qed.

(** C8: a chunk whose decode is in flight when the session is closed is
    started, on the closed output context, and added to the live set once
    the decode settles; the cursor is left past 0. *)
Theorem chunk_scheduled_after_teardown :
  let s := run demoHost [OnMessage (audioMessage (lit "AAAAAAAA")) (1 # 2);
                         OnClose noFaults; DecodeSettled 0] activeSession in
  trace s = [SessionClose 3%nat; TrackStop 2%nat; ContextClose 0%nat;
             ContextClose 1%nat; SourceStart 4%nat 1%nat (3 # 24000) 0] /\
  sourcesRef s = [4%nat] /\
  nextStartTimeRef s = (3 # 24000)%Q /\
  audioContextsRef s = None /\
  sessionState s = idle.
Proof. repeat split. Qed.

(** *** Decode failures *)

Lemma int16_samples_odd (bytes : list Z) :
  Nat.odd (List.length bytes) = true -> Codec.int16_samples bytes = None.
Proof.
  enough (H : (Nat.odd (List.length bytes) = true -> Codec.int16_samples bytes = None)
              /\ forall b, Nat.odd (List.length (b :: bytes)) = true ->
                           Codec.int16_samples (b :: bytes) = None) by apply H.
  induction bytes as [| a bytes [IH1 IH2]].
  - split; [discriminate | reflexivity].
  - split; [apply IH2 |]. intros b Hb.
    change (Nat.odd (List.length (b :: a :: bytes)))
      with (Nat.odd (List.length bytes)) in Hb.
    cbn [Codec.int16_samples]. now rewrite (IH1 Hb).
Qed.

Lemma decodeToAudioBuffer_odd (bytes : list Z) (rate channels : Z) :
  Nat.odd (List.length bytes) = true ->
  Codec.decodeToAudioBuffer bytes rate channels = None.
Proof.
  intros H. unfold Codec.decodeToAudioBuffer. now rewrite int16_samples_odd.
Qed.

Lemma remove_nth_last {A} (l : list A) (x : A) :
  remove_nth (List.length l) (l ++ [x]) = l.
Proof.
  unfold remove_nth. rewrite firstn_app, firstn_all, Nat.sub_diag.
  rewrite skipn_all2 by (rewrite length_app; cbn; lia).
  cbn [firstn]. now rewrite !app_nil_r.
Qed.

Lemma nth_error_last {A} (l : list A) (x : A) :
  nth_error (l ++ [x]) (List.length l) = Some x.
Proof. rewrite nth_error_app2 by lia. now rewrite Nat.sub_diag. Qed.

Section DecodeFailures.

Variable host : Host.

Lemma settle_odd_contained (s : App) (k : nat) (p : Pending) :
  nth_error (inFlight s) k = Some p ->
  Nat.odd (List.length (p_data p)) = true ->
  handleEvent host (DecodeSettled k) s
  = (setInFlight (remove_nth k (inFlight s)) s, Threw).
Proof.
  intros E Hodd. cbn [handleEvent]. unfold decodeSettled. rewrite E.
  unfold resume. now rewrite decodeToAudioBuffer_odd.
Qed.

Lemma onmessage_decode_rejects (s : App) m t base64Audio ctxs :
  inlineData m = Some base64Audio -> truthy base64Audio = true ->
  audioContextsRef s = Some ctxs -> decode host base64Audio = None ->
  handleEvent host (OnMessage m t) s
  = (setNextStartTime (Qmax (nextStartTimeRef s) t) (handleTranscription host m s),
     Threw).
Proof.
  intros Hd Ht Hc E. cbn [handleEvent]. unfold onmessage, onAudio.
  rewrite Hd. autorewrite with frame. now rewrite Hc, Ht, E.
Qed.

Lemma onmessage_decode_accepts (s : App) m t base64Audio ctxs bytes :
  inlineData m = Some base64Audio -> truthy base64Audio = true ->
  audioContextsRef s = Some ctxs -> decode host base64Audio = Some bytes ->
  handleEvent host (OnMessage m t) s
  = (setInFlight (inFlight s ++ [mkPending (output ctxs) bytes (interrupted m)])
       (setNextStartTime (Qmax (nextStartTimeRef s) t)
          (handleTranscription host m s)),
     Returned).
Proof.
  intros Hd Ht Hc E. cbn [handleEvent]. unfold onmessage, onAudio.
  rewrite Hd. autorewrite with frame. rewrite Hc, Ht, E. cbv zeta.
  cbn [inFlight setNextStartTime]. now autorewrite with frame.
Qed.

Lemma settle_nothing (s : App) (k : nat) :
  (List.length (inFlight s) <= k)%nat ->
  handleEvent host (DecodeSettled k) s = (s, Returned).
Proof.
  intros H. cbn [handleEvent]. unfold decodeSettled.
  now rewrite (proj2 (nth_error_None (inFlight s) k) H).
Qed.

Lemma contained_after_max (s : App) m t :
  contained s (setNextStartTime (Qmax (nextStartTimeRef s) t)
                 (handleTranscription host m s)).
Proof.
  unfold contained.
  cbn [trace sourcesRef sessionState audioContextsRef streamRef
       sessionPromiseRef setNextStartTime].
  autorewrite with frame. repeat split.
Qed.

End DecodeFailures.

(** C6: an audio message of a live session whose payload [decode] rejects, or
    whose decoded bytes are odd in number, schedules nothing and tears nothing
    down: the handler raises, at once or when the decode settles, no source is
    started or added to the live set, nothing is closed, and the session state
    and the session's resources are unchanged.  The same holds whenever a
    decode of an odd number of bytes settles later, in any state. *)
Theorem bad_chunk_is_dropped (host : Host) (s : App) (m : LiveServerMessage) (t : Q)
    (base64Audio : jsstring) (ctxs : AudioContexts) :
  inlineData m = Some base64Audio ->
  truthy base64Audio = true ->
  audioContextsRef s = Some ctxs ->
  (decode host base64Audio = None \/
   exists bytes, decode host base64Audio = Some bytes /\
                 Nat.odd (List.length bytes) = true) ->
  let s1 := step host (OnMessage m t) s in
  let s2 := step host (DecodeSettled (List.length (inFlight s))) s1 in
  contained s s1 /\ contained s s2 /\ inFlight s2 = inFlight s /\
  (snd (handleEvent host (OnMessage m t) s) = Threw \/
   snd (handleEvent host (DecodeSettled (List.length (inFlight s))) s1) = Threw) /\
  (forall s' k p, nth_error (inFlight s') k = Some p ->
                  Nat.odd (List.length (p_data p)) = true ->
                  contained s' (step host (DecodeSettled k) s')).
Proof.
  intros Hd Ht Hc Hbad. cbv zeta.
  assert (Hlater : forall s' k p, nth_error (inFlight s') k = Some p ->
                     Nat.odd (List.length (p_data p)) = true ->
                     contained s' (step host (DecodeSettled k) s')).
  { intros s' k p E Hodd. unfold step.
    rewrite (settle_odd_contained host s' k p E Hodd). repeat split. }
  pose proof (contained_after_max host s m t) as H0.
  unfold step.
  destruct Hbad as [E | (bytes & E & Hodd)].
  - rewrite (onmessage_decode_rejects host s m t _ _ Hd Ht Hc E). cbn [fst snd].
    rewrite settle_nothing
      by (cbn [inFlight setNextStartTime]; autorewrite with frame; lia).
    cbn [fst]. split; [exact H0 |]. split; [exact H0 |].
    split; [cbn [inFlight setNextStartTime]; now autorewrite with frame |].
    split; [left; reflexivity | exact Hlater].
  - rewrite (onmessage_decode_accepts host s m t _ _ _ Hd Ht Hc E). cbn [fst snd].
    set (p := mkPending (output ctxs) bytes (interrupted m)).
    rewrite (settle_odd_contained host _ (List.length (inFlight s)) p);
      [| cbn [inFlight setInFlight]; apply nth_error_last | exact Hodd].
    cbn [fst snd inFlight setInFlight]. rewrite remove_nth_last.
    split; [exact H0 |]. split; [exact H0 |]. split; [reflexivity |].
    split; [right; reflexivity | exact Hlater].
Qed.

Lemma bad_chunk_is_dropped_witness :
  let odd := audioMessage (lit "AAAA") in
  let malformed := audioMessage (lit "%%%") in
  (exists bytes, decode demoHost (lit "AAAA") = Some bytes /\
                 Nat.odd (List.length bytes) = true) /\
  decode demoHost (lit "%%%") = None /\
  contained activeSession
    (run demoHost [OnMessage odd (1 # 2); DecodeSettled 0] activeSession) /\
  contained activeSession (run demoHost [OnMessage malformed (1 # 2)] activeSession).
Proof.
  intros odd malformed.
  assert (Hodd : exists bytes, decode demoHost (lit "AAAA") = Some bytes /\
                               Nat.odd (List.length bytes) = true)
    by (exists [0; 0; 0]; split; reflexivity).
  assert (Hbad : decode demoHost (lit "%%%") = None) by reflexivity.
  split; [exact Hodd |]. split; [exact Hbad |]. split.
  - exact (proj1 (proj2 (bad_chunk_is_dropped demoHost activeSession odd (1 # 2)
                           (lit "AAAA") (mkContexts 0%nat 1%nat)
                           eq_refl eq_refl eq_refl (or_intror Hodd)))).
  - exact (proj1 (bad_chunk_is_dropped demoHost activeSession malformed (1 # 2)
                    (lit "%%%") (mkContexts 0%nat 1%nat)
                    eq_refl eq_refl eq_refl (or_introl Hbad))).
Defined.

(** ** Further properties of the controller and of the view *)

(** *** The transcript log *)

Section Log.

Variable host : Host.

Lemma cleanupSession_log f : keeps log_part (cleanupSession f).
Proof.
  unfold cleanupSession. repeat apply keeps_andThen; try (apply keeps_ret; reflexivity).
  - intros s. unfold closeTransport.
    destruct (sessionPromiseRef s), (sessionPromise_rejects f), (session_close_throws f);
      reflexivity.
  - intros s. unfold stopMicrophone. destruct (streamRef s); reflexivity.
  - intros s. unfold releaseContexts.
    destruct (audioContextsRef s), (input_close_rejects f), (output_close_rejects f);
      reflexivity.
Qed.

Lemma startSession_log g f : keeps log_part (startSession host g f).
Proof.
  intros s. unfold startSession, startFailed. cbv zeta.
  destruct (negb (has_key (API_KEY host))); [now rewrite cleanupSession_log |].
  destruct g; [now rewrite cleanupSession_log | reflexivity].
Qed.

Lemma onAudio_log m t : keeps log_part (onAudio host m t).
Proof.
  intros s. unfold onAudio, onInterrupted.
  destruct (inlineData m) as [b |], (audioContextsRef s), (interrupted m);
    try reflexivity; destruct (truthy b); try reflexivity;
    destruct (decode host b); reflexivity.
Qed.

Lemma resume_log p : keeps log_part (resume p).
Proof.
  intros s. unfold resume, onInterrupted.
  destruct (Codec.decodeToAudioBuffer (p_data p) 24000 1); [| reflexivity].
  destruct (p_interrupted p); reflexivity.
Qed.

Lemma onTranscription_log m s : log_part (onTranscription m s) = log_part s.
Proof.
  unfold onTranscription.
  destruct (inputTranscription m); [reflexivity |].
  destruct (outputTranscription m); reflexivity.
Qed.

Lemma completeTurn_log_ind (P : list TranscriptionEntry * nat * nat -> Prop) :
  (forall who txt s, P (log_part s) -> P (log_part (addEntry host who txt s))) ->
  forall s, P (log_part s) -> P (log_part (completeTurn host s)).
Proof.
  intros Hadd s H. unfold completeTurn. cbv zeta.
  set (s1 := setCurrentInput [] _).
  assert (H1 : P (log_part s1)).
  { subst s1.
    assert (E : forall x, log_part (setCurrentInput [] x) = log_part x) by reflexivity.
    rewrite E. destruct (truthy (currentInput s)); [now apply Hadd | exact H]. }
  assert (E : forall x, log_part (setCurrentOutput [] x) = log_part x) by reflexivity.
  rewrite E. destruct (truthy (currentOutput s1)); [now apply Hadd | exact H1].
Qed.

(** Whatever [addEntry] maintains about the log, every event maintains. *)
Lemma step_log_ind (P : list TranscriptionEntry * nat * nat -> Prop) :
  (forall who txt s, P (log_part s) -> P (log_part (addEntry host who txt s))) ->
  forall e s, P (log_part s) -> P (log_part (step host e s)).
Proof.
  intros Hadd e s H. unfold step.
  destruct e as [g f | | m t | k | src | f | f]; cbn [handleEvent].
  - unfold toggleSession.
    destruct (isActive (sessionState s) || isConnecting (sessionState s)).
    + now rewrite cleanupSession_log.
    + now rewrite startSession_log.
  - exact H.
  - unfold onmessage. rewrite onAudio_log. unfold handleTranscription. cbv zeta.
    destruct (turnComplete m); [| now rewrite onTranscription_log].
    apply completeTurn_log_ind; [exact Hadd | now rewrite onTranscription_log].
  - unfold decodeSettled. destruct (nth_error (inFlight s) k); [| exact H].
    now rewrite resume_log.
  - exact H.
  - unfold onerror. now rewrite cleanupSession_log.
  - unfold onclose. now rewrite cleanupSession_log.
Qed.

Lemma run_log_ind (P : list TranscriptionEntry * nat * nat -> Prop) :
  (forall who txt s, P (log_part s) -> P (log_part (addEntry host who txt s))) ->
  forall es s, P (log_part s) -> P (log_part (run host es s)).
Proof.
  intros Hadd es. induction es as [| e es IH]; intros s H; [exact H |].
  cbn [run fold_left]. apply IH. now apply step_log_ind.
Qed.

Lemma addEntry_log who txt s :
  log_part (addEntry host who txt s)
  = if truthy (trim txt)
    then (entries s ++ [mkEntry (randomUUID host (uuidCalls s)) who txt
                                (Date_now host (nowCalls s))],
          S (uuidCalls s), S (nowCalls s))
    else log_part s.
Proof. unfold addEntry. destruct (truthy (trim txt)); reflexivity. Qed.

Lemma run_indexed es : indexed host (log_part (run host es init)).
Proof.
  apply run_log_ind; [| repeat split].
  intros who txt s (Hu & Hn & Hi & Ht). rewrite addEntry_log.
  destruct (truthy (trim txt)); [| repeat split; assumption].
  unfold indexed, log_part in *. cbn [fst snd] in *.
  rewrite length_app, Nat.add_1_r, seq_S, !map_app, <- Hi, <- Ht, Hu, Hn.
  repeat split.
Qed.

End Log.

Lemma NoDup_map_injective {A B} (f : A -> B) (l : list A) :
  (forall a b, f a = f b -> a = b) -> NoDup l -> NoDup (map f l).
Proof.
  intros Hf. induction 1 as [| a l Ha _ IH]; cbn [map]; constructor; [| exact IH].
  intros Hin. apply in_map_iff in Hin as (b & E & Hb).
  apply Hf in E. now subst.
Qed.

Lemma keys_TranscriptionView es ci co :
  keys (TranscriptionView es ci co) = map id es.
Proof.
  unfold TranscriptionView, keys. rewrite !flat_map_app.
  replace (flat_map _ (map entryBlock es)) with (map id es).
  - destruct (_ && _ && _), (truthy ci), (truthy co); cbn [flat_map app];
      now rewrite ?app_nil_r.
  - induction es as [| e es IH]; [reflexivity |]. cbn [map flat_map entryBlock app].
    now rewrite <- IH.
Qed.

Lemma ordered_from {A} (f : nat -> Z) (ts : A -> Z) (l : list A) :
  (forall a b, (a <= b)%nat -> f a <= f b) ->
  forall start, map ts l = map f (seq start (List.length l)) ->
  Forall (fun x => f start <= ts x) l /\
  ForallOrdPairs (fun x y => ts x <= ts y) l.
Proof.
  intros Hf. induction l as [| a l IH]; intros start E.
  - split; constructor.
  - cbn [List.length seq map] in E. injection E as Ea El.
    destruct (IH (S start) El) as [Hlow Hord].
    assert (Hlow' : Forall (fun x => f start <= ts x) l).
    { eapply Forall_impl; [| exact Hlow]. cbv beta. intros x Hx.
      pose proof (Hf start (S start)). lia. }
    split.
    + constructor; [rewrite Ea; apply Hf; lia | exact Hlow'].
    + constructor; [| exact Hord]. rewrite Ea. exact Hlow'.
Qed.

(** X1: the transcript log is append-only: whatever events are handled, teardowns
    and failed teardowns included, the entries present before are still there,
    unchanged and in the same places, followed by the entries added since. *)
Theorem log_append_only (host : Host) (s : App) (es : list event) :
  exists added, entries (run host es s) = entries s ++ added.
Proof.
  change (entries (run host es s)) with (fst (fst (log_part (run host es s)))).
  apply (run_log_ind host (fun l => exists added, fst (fst l) = entries s ++ added)).
  - intros who txt s0 [added E]. rewrite addEntry_log.
    destruct (truthy (trim txt)); [| now exists added].
    unfold log_part in E. cbn [fst] in *. exists (added ++ [mkEntry (randomUUID host (uuidCalls s0)) who txt
                                              (Date_now host (nowCalls s0))]).
    now rewrite E, app_assoc.
  - exists []. cbn [log_part fst]. now rewrite app_nil_r.
Qed.

(** X2: in every state reached from the initial one, entry number [k] of the
    log carries the result of the [k]-th call of [crypto.randomUUID()] as its id
    and of the [k]-th call of [Date.now()] as its timestamp, and the two
    functions have been called once per entry. *)
Theorem log_indexed (host : Host) (es : list event) :
  let s := run host es init in
  map id (entries s) = map (randomUUID host) (seq 0 (List.length (entries s))) /\
  map timestamp (entries s) = map (Date_now host) (seq 0 (List.length (entries s))) /\
  uuidCalls s = List.length (entries s) /\
  nowCalls s = List.length (entries s).
Proof.
  destruct (run_indexed host es) as (Hu & Hn & Hi & Ht).
  cbv zeta. repeat split; assumption.
Qed.

(** X3: when [crypto.randomUUID()] never returns the same value twice, the ids
    of the log, which the view uses as React keys, are pairwise distinct in
    every state reached from the initial one. *)
Theorem keys_unique (host : Host) (es : list event) :
  (forall a b, randomUUID host a = randomUUID host b -> a = b) ->
  let s := run host es init in
  NoDup (map id (entries s)) /\ NoDup (keys (transcript s)).
Proof.
  intros Hinj. cbv zeta. unfold transcript. rewrite keys_TranscriptionView.
  destruct (run_indexed host es) as (_ & _ & Hi & _). cbn [log_part fst] in Hi.
  rewrite Hi. split; apply NoDup_map_injective; try exact Hinj; apply seq_NoDup.
Qed.

Lemma demoHost_uuid_injective :
  forall a b, randomUUID demoHost a = randomUUID demoHost b -> a = b.
Proof.
  intros a b E. cbn [randomUUID demoHost] in E.
  apply app_inv_head in E. injection E as E. now apply Nnat.Nat2N.inj.
Qed.

Lemma keys_unique_witness :
  let s := run demoHost [OnMessage (userDelta "Hi") 0; OnMessage turnCompleteMessage 0;
                         OnMessage (userDelta "Bye") 0; OnMessage turnCompleteMessage 0]
               init in
  (forall a b, randomUUID demoHost a = randomUUID demoHost b -> a = b) /\
  NoDup (map id (entries s)) /\ NoDup (keys (transcript s)).
Proof.
  intros s. split; [exact demoHost_uuid_injective |].
  exact (keys_unique demoHost _ demoHost_uuid_injective).
Defined.

(** X4: when [Date.now()] never goes back, the timestamps of the log are in
    non-decreasing order in every state reached from the initial one. *)
Theorem timestamps_ordered (host : Host) (es : list event) :
  (forall a b, (a <= b)%nat -> Date_now host a <= Date_now host b) ->
  ForallOrdPairs (fun x y => timestamp x <= timestamp y)
                 (entries (run host es init)).
Proof.
  intros Hmono.
  destruct (run_indexed host es) as (_ & _ & _ & Ht). cbn [log_part fst] in Ht.
  exact (proj2 (ordered_from (Date_now host) timestamp _ Hmono 0%nat Ht)).
Qed.

Lemma demoHost_clock_monotone :
  forall a b, (a <= b)%nat -> Date_now demoHost a <= Date_now demoHost b.
Proof. intros a b H. cbn [Date_now demoHost]. lia. Qed.

Lemma timestamps_ordered_witness :
  (forall a b, (a <= b)%nat -> Date_now demoHost a <= Date_now demoHost b) /\
  ForallOrdPairs (fun x y => timestamp x <= timestamp y)
    (entries (run demoHost [OnMessage (userDelta "Hi") 0; OnMessage turnCompleteMessage 0;
                            OnMessage (userDelta "Bye") 0; OnMessage turnCompleteMessage 0]
                  init)).
Proof.
  split; [exact demoHost_clock_monotone |].
  exact (timestamps_ordered demoHost _ demoHost_clock_monotone).
Defined.

(** *** Partial text *)

Section Deltas.

Variable host : Host.

Lemma onTranscription_buffers m s :
  currentInput (onTranscription m s) = currentInput s ++ inputDelta m /\
  currentOutput (onTranscription m s) = currentOutput s ++ outputDelta m.
Proof.
  unfold onTranscription, inputDelta, outputDelta.
  destruct (inputTranscription m) as [t |].
  - cbn [currentInput currentOutput setCurrentInput]. now rewrite app_nil_r.
  - destruct (outputTranscription m) as [t |];
      cbn [currentInput currentOutput setCurrentOutput]; now rewrite !app_nil_r.
Qed.

Lemma onAudio_buffers m t :
  keeps (fun s => (currentInput s, currentOutput s)) (onAudio host m t).
Proof.
  intros s. unfold onAudio, onInterrupted.
  destruct (inlineData m) as [b |], (audioContextsRef s), (interrupted m);
    try reflexivity; destruct (truthy b); try reflexivity;
    destruct (decode host b); reflexivity.
Qed.

Lemma onmessage_buffers m t s :
  turnComplete m = false ->
  currentInput (step host (OnMessage m t) s) = currentInput s ++ inputDelta m /\
  currentOutput (step host (OnMessage m t) s) = currentOutput s ++ outputDelta m /\
  entries (step host (OnMessage m t) s) = entries s.
Proof.
  intros Hc. unfold step. cbn [handleEvent]. unfold onmessage.
  pose proof (onAudio_buffers m t (handleTranscription host m s)) as Hb.
  cbv beta in Hb. injection Hb as Hi Ho. rewrite Hi, Ho, onAudio_entries.
  unfold handleTranscription. cbv zeta. rewrite Hc.
  destruct (onTranscription_buffers m s) as [Ei Eo].
  now rewrite Ei, Eo, onTranscription_entries.
Qed.

End Deltas.

(** X5: over any run of messages that carry no turn completion, whatever else
    they carry, the user buffer grows by the [inputTranscription] texts in
    arrival order and the model buffer by the [outputTranscription] texts of
    the messages that have no [inputTranscription] (the text of a message that
    has both goes to the user buffer only; a missing [text] appends
    "undefined"); the log is unchanged. *)
Theorem deltas_accumulate (host : Host) (s : App) (ms : list (LiveServerMessage * Q)) :
  forallb (fun mt => negb (turnComplete (fst mt))) ms = true ->
  let s' := run host (map deliver ms) s in
  currentInput s' = currentInput s ++ List.concat (map (fun mt => inputDelta (fst mt)) ms) /\
  currentOutput s' = currentOutput s ++ List.concat (map (fun mt => outputDelta (fst mt)) ms) /\
  entries s' = entries s.
Proof.
  cbv zeta. revert s. induction ms as [| [m t] ms IH]; intros s H.
  - cbn [map List.concat run fold_left]. now rewrite !app_nil_r.
  - cbn [forallb fst] in H. apply andb_true_iff in H as [Hm Hms].
    apply negb_true_iff in Hm.
    change (run host (map deliver ((m, t) :: ms)) s)
      with (run host (map deliver ms) (step host (OnMessage m t) s)).
    cbn [map List.concat fst].
    destruct (IH (step host (OnMessage m t) s) Hms) as (Ei & Eo & Ee).
    destruct (onmessage_buffers host m t s Hm) as (Si & So & Se).
    rewrite Ei, Eo, Ee, Si, So, Se.
    now rewrite !app_assoc.
Qed.

Lemma deltas_accumulate_witness :
  let both := mkMessage (Some (Some (lit "lo"))) (Some (Some (lit "dropped")))
                        false None false in
  let missing := mkMessage None (Some None) false None false in
  let ms := [(userDelta "Hel", 0%Q); (both, 0%Q); (missing, 0%Q)] in
  forallb (fun mt => negb (turnComplete (fst mt))) ms = true /\
  currentInput (run demoHost (map deliver ms) activeSession) = lit "Hello" /\
  currentOutput (run demoHost (map deliver ms) activeSession) = lit "undefined".
Proof.
  intros both missing ms.
  assert (H : forallb (fun mt => negb (turnComplete (fst mt))) ms = true) by reflexivity.
  split; [exact H |].
  destruct (deltas_accumulate demoHost activeSession ms H) as (Ei & Eo & _).
  split; [exact Ei | exact Eo].
Defined.

(** X6: a message that carries a turn completion together with partial text
    finalizes the buffers with that text already appended: no delta that arrives
    with or before the turn completion is left out of the entry, and both
    buffers are empty afterwards. *)
Theorem turn_completion_includes_delta (host : Host) (s : App)
    (m : LiveServerMessage) (t : Q) :
  turnComplete m = true ->
  let s' := step host (OnMessage m t) s in
  let u := finalized host user (currentInput s ++ inputDelta m)
             (uuidCalls s) (nowCalls s) in
  entries s' = entries s ++ u
               ++ finalized host model (currentOutput s ++ outputDelta m)
                    (uuidCalls s + List.length u) (nowCalls s + List.length u) /\
  currentInput s' = [] /\ currentOutput s' = [].
Proof.
  intros Hc. cbv zeta. unfold step. cbn [handleEvent]. unfold onmessage.
  pose proof (onAudio_buffers host m t (handleTranscription host m s)) as Hb.
  cbv beta in Hb. injection Hb as Hi Ho. rewrite Hi, Ho, onAudio_entries.
  unfold handleTranscription. cbv zeta. rewrite Hc.
  destruct (completeTurn_buffers host (onTranscription m s)) as [Bi Bo].
  split; [| split; assumption].
  rewrite completeTurn_entries.
  destruct (onTranscription_buffers m s) as [Ei Eo].
  pose proof (onTranscription_log m s) as El. unfold log_part in El.
  injection El as Ee Eu En.
  now rewrite Ei, Eo, Ee, Eu, En.
Qed.

Lemma turn_completion_includes_delta_witness :
  let m := mkMessage (Some (Some (lit "llo"))) None true None false in
  let s := setCurrentInput (lit "He") activeSession in
  turnComplete m = true /\
  map text (entries (step demoHost (OnMessage m 0) s)) = [lit "Hello"].
Proof.
  intros m s.
  assert (H : turnComplete m = true) by reflexivity.
  split; [exact H |].
  destruct (turn_completion_includes_delta demoHost s m 0 H) as (E & _).
  rewrite E. reflexivity.
Defined.

(** X7: a teardown that completes drops the pending text for good: the log is
    what it was before the teardown, and a turn completion that arrives after
    it adds no entry. *)
Theorem teardown_discards_pending_text (host : Host) (s : App) (f : Faults) (t : Q) :
  snd (cleanupSession f s) = Returned ->
  let s1 := fst (cleanupSession f s) in
  entries s1 = entries s /\
  entries (step host (OnMessage turnCompleteMessage t) s1) = entries s /\
  transcript (step host (OnMessage turnCompleteMessage t) s1) = transcript s1.
Proof.
  intros H. cbv zeta. rewrite (cleanupSession_returned f s H).
  repeat split.
Qed.

Lemma teardown_discards_pending_text_witness :
  let s := setCurrentInput (lit "Hel") activeSession in
  snd (cleanupSession noFaults s) = Returned /\
  entries (run demoHost [OnClose noFaults; OnMessage turnCompleteMessage 0] s) = [].
Proof.
  intros s.
  assert (H : snd (cleanupSession noFaults s) = Returned) by reflexivity.
  split; [exact H |].
  exact (proj1 (proj2 (teardown_discards_pending_text demoHost s noFaults 0 H))).
Defined.

(** *** Source nodes *)

Lemma preserves_ret (P : App -> Prop) (f : App -> App) :
  (forall s, P s -> P (f s)) -> preserves P (ret f).
Proof. intros H s. apply H. Qed.

Lemma preserves_andThen (P : App -> Prop) (h k : Handler) :
  preserves P h -> preserves P k -> preserves P (h ;; k).
Proof.
  intros Hh Hk s Hs. unfold andThen. specialize (Hh s Hs).
  destruct (h s) as [s' []]; cbn [fst] in *.
  - now apply Hk.
  - exact Hh.
Qed.

Lemma started_app a b : started (a ++ b) = started a ++ started b.
Proof. unfold started. apply flat_map_app. Qed.

Lemma stopped_app a b : stopped (a ++ b) = stopped a ++ stopped b.
Proof. unfold stopped. apply flat_map_app. Qed.

Lemma started_stops l : started (map SourceStop l) = [].
Proof. induction l; [reflexivity | exact IHl]. Qed.

Lemma stopped_stops l : stopped (map SourceStop l) = l.
Proof.
  induction l as [| x l IH]; [reflexivity |].
  change (x :: stopped (map SourceStop l) = x :: l). now rewrite IH.
Qed.

Lemma stops_follow_starts_app seen a b :
  stops_follow_starts seen (a ++ b)
  = stops_follow_starts seen a && stops_follow_starts (rev (started a) ++ seen) b.
Proof.
  revert seen. induction a as [| e a IH]; intros seen; [reflexivity |].
  destruct e; cbn [app stops_follow_starts started flat_map]; rewrite IH;
    cbn [app rev]; rewrite <- ?app_assoc; cbn [app]; try reflexivity.
  now rewrite andb_assoc.
Qed.

Lemma stops_follow_starts_stops seen l :
  incl l seen -> stops_follow_starts seen (map SourceStop l) = true.
Proof.
  induction l as [| x l IH]; intros H; [reflexivity |].
  cbn [map stops_follow_starts]. rewrite IH by (intros y Hy; apply H; now right).
  rewrite andb_true_r. apply existsb_exists. exists x.
  split; [apply H; now left | apply Nat.eqb_refl].
Qed.

Lemma stops_follow_starts_quiet seen es :
  stopped es = [] -> stops_follow_starts seen es = true.
Proof.
  revert seen. induction es as [| e es IH]; intros seen H; [reflexivity |].
  destruct e; cbn [stopped flat_map app] in H; try discriminate;
    cbn [stops_follow_starts]; now apply IH.
Qed.

(** Effects other than [start] and [stop] add nothing to account for. *)
Lemma live_sound_quiet srcs al tr es :
  started es = [] -> stopped es = [] ->
  live_sound srcs al tr -> live_sound srcs al (tr ++ es).
Proof.
  intros Hs Hp (H1 & H2 & H3 & H4 & H5 & H6 & H7 & H8).
  unfold live_sound. rewrite started_app, stopped_app, Hs, Hp, !app_nil_r.
  rewrite stops_follow_starts_app, H8, (stops_follow_starts_quiet _ es Hp).
  repeat split; assumption.
Qed.

Lemma live_sound_alloc srcs al al' tr :
  (al <= al')%nat -> live_sound srcs al tr -> live_sound srcs al' tr.
Proof.
  intros Hle (H1 & H2 & H3 & H4 & H5 & H6 & H7 & H8).
  repeat split; try assumption.
  eapply Forall_impl; [| exact H7]. cbv beta. intros; lia.
Qed.

Lemma live_sound_interrupt srcs al tr :
  live_sound srcs al tr -> live_sound [] al (tr ++ map SourceStop srcs).
Proof.
  intros (H1 & H2 & H3 & H4 & H5 & H6 & H7 & H8).
  unfold live_sound.
  rewrite started_app, stopped_app, started_stops, stopped_stops, app_nil_r.
  rewrite stops_follow_starts_app, H8, app_nil_r.
  repeat split; try assumption.
  - constructor.
  - intros x [].
  - intros x [].
  - apply NoDup_app; [exact H5 | exact H1 |].
    intros x Hx Hx'. exact (H3 x Hx' Hx).
  - apply incl_app; assumption.
  - apply stops_follow_starts_stops. intros x Hx. apply -> in_rev. apply H2, Hx.
Qed.

Lemma set_add_fresh x l : ~ In x l -> set_add x l = l ++ [x].
Proof.
  intros H. unfold set_add.
  destruct (existsb (Nat.eqb x) l) eqn:E; [| reflexivity].
  apply existsb_exists in E as (y & Hy & Exy).
  apply Nat.eqb_eq in Exy. now subst.
Qed.

Lemma live_sound_fresh srcs al tr :
  live_sound srcs al tr -> ~ In al srcs /\ ~ In al (started tr) /\ ~ In al (stopped tr).
Proof.
  intros (H1 & H2 & H3 & H4 & H5 & H6 & H7 & H8).
  assert (Hs : ~ In al (started tr)).
  { intros Hin. apply (proj1 (Forall_forall _ _) H7) in Hin. lia. }
  repeat split; [intros Hin; apply Hs, H2, Hin | exact Hs |].
  intros Hin. apply Hs, H6, Hin.
Qed.

Lemma live_sound_start srcs al tr ctx d w :
  live_sound srcs al tr ->
  live_sound (set_add al srcs) (1 + al) (tr ++ [SourceStart al ctx d w]).
Proof.
  intros H. destruct (live_sound_fresh _ _ _ H) as (Fa & Fs & Fp).
  destruct H as (H1 & H2 & H3 & H4 & H5 & H6 & H7 & H8).
  rewrite (set_add_fresh _ _ Fa). unfold live_sound.
  rewrite started_app, stopped_app, stops_follow_starts_app, H8.
  cbn [started stopped flat_map app stops_follow_starts andb]. rewrite app_nil_r.
  repeat split; try assumption.
  - apply NoDup_app; [exact H1 | repeat constructor; intros [] |].
    intros x Hx [<- | []]. exact (Fa Hx).
  - apply incl_app; [apply incl_appl, H2 | apply incl_appr, incl_refl].
  - intros x Hx Hp. apply in_app_or in Hx as [Hx | [<- | []]].
    + exact (H3 x Hx Hp).
    + exact (Fp Hp).
  - apply NoDup_app; [exact H4 | repeat constructor; intros [] |].
    intros x Hx [<- | []]. exact (Fs Hx).
  - apply incl_appl, H6.
  - apply Forall_app. split.
    + eapply Forall_impl; [| exact H7]. cbv beta. intros; lia.
    + repeat constructor.
Qed.

Lemma live_sound_delete x srcs al tr :
  live_sound srcs al tr -> live_sound (set_delete x srcs) al tr.
Proof.
  intros (H1 & H2 & H3 & H4 & H5 & H6 & H7 & H8). unfold set_delete.
  repeat split; try assumption.
  - apply NoDup_filter, H1.
  - intros y Hy. apply filter_In in Hy as [Hy _]. exact (H2 y Hy).
  - intros y Hy. apply filter_In in Hy as [Hy _]. exact (H3 y Hy).
Qed.

Section SourceNodes.

Variable host : Host.

Lemma interrupt_sound s : playback_sound s -> playback_sound (interrupt s).
Proof. apply live_sound_interrupt. Qed.

Lemma onInterrupted_sound flag s :
  playback_sound s -> playback_sound (onInterrupted flag s).
Proof. destruct flag; [apply interrupt_sound | exact (fun H => H)]. Qed.

Lemma cleanupSession_sound f : preserves playback_sound (cleanupSession f).
Proof.
  unfold cleanupSession. repeat apply preserves_andThen.
  - intros s H. unfold closeTransport.
    destruct (sessionPromiseRef s), (sessionPromise_rejects f), (session_close_throws f);
      try exact H.
    now apply (live_sound_quiet _ _ _ [SessionClose h]).
  - intros s H. unfold stopMicrophone. destruct (streamRef s) as [m |]; [| exact H].
    now apply (live_sound_quiet _ _ _ [TrackStop m]).
  - intros s H. unfold releaseContexts.
    destruct (audioContextsRef s) as [c |], (input_close_rejects f),
      (output_close_rejects f); try exact H.
    + now apply (live_sound_quiet _ _ _ [ContextClose (input c)]).
    + apply (live_sound_quiet _ _ _ [ContextClose (output c)]); try reflexivity.
      now apply (live_sound_quiet _ _ _ [ContextClose (input c)]).
  - apply preserves_ret, interrupt_sound.
  - apply preserves_ret. intros s H. exact H.
Qed.

Lemma startSession_sound g f : preserves playback_sound (startSession host g f).
Proof.
  intros s H. unfold startSession, startFailed. cbv zeta.
  destruct (negb (has_key (API_KEY host))).
  - apply cleanupSession_sound.
    now apply (live_sound_quiet _ _ _ [ConsoleError]).
  - destruct g as [msg |].
    + apply cleanupSession_sound.
      apply (live_sound_quiet _ _ _ [ConsoleError]); try reflexivity.
      apply (live_sound_alloc _ (allocated s)); [cbn; lia | exact H].
    + apply (live_sound_alloc _ (allocated s)); [cbn; lia | exact H].
Qed.

Lemma onAudio_sound m t : preserves playback_sound (onAudio host m t).
Proof.
  intros s H. unfold onAudio.
  destruct (inlineData m) as [b |]; [| now apply onInterrupted_sound].
  destruct (audioContextsRef s); [| now apply onInterrupted_sound].
  destruct (truthy b); [| now apply onInterrupted_sound].
  cbv zeta. destruct (decode host b); exact H.
Qed.

Lemma resume_sound p : preserves playback_sound (resume p).
Proof.
  intros s H. unfold resume.
  destruct (Codec.decodeToAudioBuffer (p_data p) 24000 1) as [buf |]; [| exact H].
  cbv zeta. cbn [fst]. apply onInterrupted_sound.
  exact (live_sound_start _ _ _ (p_ctx p) (Codec.duration buf) (nextStartTimeRef s) H).
Qed.

Lemma handleTranscription_sound m s :
  playback_sound s -> playback_sound (handleTranscription host m s).
Proof.
  unfold playback_sound.
  pose proof (handleTranscription_untouched host m s) as E. unfold untouched in E.
  injection E as _ _ -> _ _ _ -> _ ->. exact (fun H => H).
Qed.

Lemma step_sound e s : playback_sound s -> playback_sound (step host e s).
Proof.
  intros H. unfold step.
  destruct e as [g f | | m t | k | src | f | f]; cbn [handleEvent].
  - unfold toggleSession.
    destruct (isActive (sessionState s) || isConnecting (sessionState s)).
    + now apply cleanupSession_sound.
    + now apply startSession_sound.
  - exact H.
  - unfold onmessage. apply onAudio_sound. now apply handleTranscription_sound.
  - unfold decodeSettled. destruct (nth_error (inFlight s) k); [| exact H].
    apply resume_sound. exact H.
  - cbn [ret fst]. now apply live_sound_delete.
  - unfold onerror. apply cleanupSession_sound.
    now apply (live_sound_quiet _ _ _ [ConsoleError]).
  - unfold onclose. now apply cleanupSession_sound.
Qed.

Lemma run_sound es s : playback_sound s -> playback_sound (run host es s).
Proof.
  revert s. induction es as [| e es IH]; intros s H; [exact H |].
  cbn [run fold_left]. apply IH. now apply step_sound.
Qed.

Lemma init_sound : playback_sound init.
Proof.
  repeat split; try constructor; try (intros x []).
Qed.

End SourceNodes.

(** X8: in every state reached from the initial one, the live set has no
    duplicates and every source in it has been started and has not been
    stopped. *)
Theorem live_set_sound (host : Host) (es : list event) :
  let s := run host es init in
  NoDup (sourcesRef s) /\
  incl (sourcesRef s) (started (trace s)) /\
  (forall x, In x (sourcesRef s) -> ~ In x (stopped (trace s))).
Proof.
  destruct (run_sound host es init init_sound) as (H1 & H2 & H3 & _).
  cbv zeta. repeat split; assumption.
Qed.

(** X9: along every run from the initial state, [start] is called at most once
    on a source node, [stop] at most once, and only on a node whose [start] was
    called earlier: neither call can fail on the node's state. *)
Theorem start_stop_discipline (host : Host) (es : list event) :
  let tr := trace (run host es init) in
  NoDup (started tr) /\ NoDup (stopped tr) /\ stops_follow_starts [] tr = true.
Proof.
  destruct (run_sound host es init init_sound) as (_ & _ & _ & H4 & H5 & _ & _ & H8).
  cbv zeta. repeat split; assumption.
Qed.

(** *** Scheduling one chunk *)

Lemma set_delete_last x l : ~ In x l -> set_delete x (l ++ [x]) = l.
Proof.
  intros H. unfold set_delete. rewrite filter_app. cbn [filter].
  rewrite Nat.eqb_refl. cbn [negb]. rewrite app_nil_r.
  apply forallb_filter_id. apply forallb_forall. intros y Hy.
  apply negb_true_iff, Nat.eqb_neq. intros ->. exact (H Hy).
Qed.

Section OneChunk.

Variable host : Host.

(** What the continuation of line 126 does when the decode succeeded, up to
    the test of [interrupted]. *)
Lemma settle_decoded (s : App) (k : nat) (p : Pending) (buf : Codec.AudioBuffer) :
  nth_error (inFlight s) k = Some p ->
  Codec.decodeToAudioBuffer (p_data p) 24000 1 = Some buf ->
  exists s1,
    handleEvent host (DecodeSettled k) s = (onInterrupted (p_interrupted p) s1, Returned) /\
    trace s1 = trace s ++ [SourceStart (allocated s) (p_ctx p) (Codec.duration buf)
                             (nextStartTimeRef s)] /\
    nextStartTimeRef s1 = (nextStartTimeRef s + Codec.duration buf)%Q /\
    sourcesRef s1 = set_add (allocated s) (sourcesRef s) /\
    inFlight s1 = remove_nth k (inFlight s) /\
    untouched s1 = (nextStartTimeRef s1, audioContextsRef s, sourcesRef s1, streamRef s,
                    sessionPromiseRef s, inFlight s1, trace s1, sessionState s,
                    S (allocated s)).
Proof.
  intros E Hdec. cbn [handleEvent]. unfold decodeSettled. rewrite E.
  unfold resume. rewrite Hdec. cbv zeta.
  eexists. split; [reflexivity |]. repeat split.
Qed.

Lemma received_decodable (s : App) m t base64Audio ctxs bytes :
  inlineData m = Some base64Audio -> truthy base64Audio = true ->
  audioContextsRef s = Some ctxs -> decode host base64Audio = Some bytes ->
  exists s1,
    handleEvent host (OnMessage m t) s = (s1, Returned) /\
    nth_error (inFlight s1) (List.length (inFlight s))
    = Some (mkPending (output ctxs) bytes (interrupted m)) /\
    remove_nth (List.length (inFlight s)) (inFlight s1) = inFlight s /\
    trace s1 = trace s /\ sourcesRef s1 = sourcesRef s /\
    allocated s1 = allocated s /\
    nextStartTimeRef s1 = Qmax (nextStartTimeRef s) t.
Proof.
  intros Hd Ht Hc E.
  rewrite (onmessage_decode_accepts host s m t _ _ _ Hd Ht Hc E).
  eexists. split; [reflexivity |].
  cbn [inFlight trace sourcesRef allocated nextStartTimeRef setInFlight setNextStartTime].
  pose proof (handleTranscription_untouched host m s) as U. unfold untouched in U.
  injection U as _ _ Es _ _ _ Et _ Ea.
  rewrite Es, Et, Ea, nth_error_last, remove_nth_last. repeat split.
Qed.

End OneChunk.

(** X10: a chunk that is scheduled joins the live set as its last member, and
    when its playback ends the [ended] listener takes exactly that chunk out
    again: the live set is what it was before the chunk.  This holds in every
    state reached from the initial one. *)
Theorem scheduled_then_ended (host : Host) (es : list event) (k : nat) (p : Pending)
    (buf : Codec.AudioBuffer) :
  let s := run host es init in
  nth_error (inFlight s) k = Some p ->
  Codec.decodeToAudioBuffer (p_data p) 24000 1 = Some buf ->
  p_interrupted p = false ->
  let s1 := step host (DecodeSettled k) s in
  sourcesRef s1 = sourcesRef s ++ [allocated s] /\
  sourcesRef (step host (Ended (allocated s)) s1) = sourcesRef s.
Proof.
  intros s E Hdec Hflag. cbv zeta.
  destruct (settle_decoded host s k p buf E Hdec) as (s1 & Hs1 & _ & _ & Hsrc & _).
  assert (Hstep : step host (DecodeSettled k) s = s1).
  { unfold step. rewrite Hs1, Hflag. reflexivity. }
  rewrite Hstep.
  destruct (live_sound_fresh _ _ _ (run_sound host es init (init_sound))) as (Hf & _).
  fold s in Hf. rewrite (set_add_fresh _ _ Hf) in Hsrc.
  split; [exact Hsrc |].
  unfold step. cbn [handleEvent ret fst]. unfold ended.
  cbn [sourcesRef setSources]. rewrite Hsrc. now apply set_delete_last.
Qed.

Lemma scheduled_then_ended_witness :
  let es := [Click None noFaults; OnOpen;
             OnMessage (audioMessage (lit "AAAAAAAA")) (1 # 2); DecodeSettled 0;
             OnMessage (audioMessage (lit "AAAAAAAA")) (1 # 2)] in
  let s := run demoHost es init in
  let p := mkPending 1%nat [0; 0; 0; 0; 0; 0] false in
  nth_error (inFlight s) 0 = Some p /\
  sourcesRef (step demoHost (DecodeSettled 0) s) = [4%nat; 5%nat] /\
  sourcesRef (run demoHost [DecodeSettled 0; Ended 5%nat] s) = [4%nat].
Proof.
  intros es s p.
  assert (E : nth_error (inFlight s) 0 = Some p) by reflexivity.
  split; [exact E |].
  exact (scheduled_then_ended demoHost es 0 p
           (Codec.mkAudioBuffer [0 # 32768; 0 # 32768; 0 # 32768]%Q 24000 1) E eq_refl eq_refl).
Defined.

(** X11: an audio message of a live session whose payload decodes, handled with
    nothing in between, starts one new source on the output context at
    max(cursor, clock), so neither in the past nor before the end of what is
    already scheduled, and moves the cursor to that start plus the duration of
    the buffer; no decode stays in flight. *)
Theorem chunk_starts_at_max (host : Host) (s : App) (m : LiveServerMessage) (t : Q)
    (base64Audio : jsstring) (ctxs : AudioContexts) (bytes : list Z)
    (buf : Codec.AudioBuffer) :
  inlineData m = Some base64Audio ->
  truthy base64Audio = true ->
  audioContextsRef s = Some ctxs ->
  decode host base64Audio = Some bytes ->
  Codec.decodeToAudioBuffer bytes 24000 1 = Some buf ->
  interrupted m = false ->
  let s2 := run host [OnMessage m t; DecodeSettled (List.length (inFlight s))] s in
  let start := Qmax (nextStartTimeRef s) t in
  trace s2 = trace s ++ [SourceStart (allocated s) (output ctxs) (Codec.duration buf) start] /\
  nextStartTimeRef s2 = (start + Codec.duration buf)%Q /\
  (t <= start)%Q /\ (nextStartTimeRef s <= start)%Q /\
  inFlight s2 = inFlight s.
Proof.
  intros Hd Ht Hc E Hdec Hflag. cbv zeta. cbn [run fold_left]. unfold step.
  destruct (received_decodable host s m t _ _ _ Hd Ht Hc E)
    as (s1 & -> & Hn & Hr & Htr & _ & Hal & Hnst).
  cbn [fst].
  destruct (settle_decoded host s1 _ _ buf Hn Hdec) as (s2 & -> & Htr2 & Hnst2 & _ & Hfl & _).
  cbn [p_interrupted p_ctx fst] in *. rewrite Hflag. cbn [onInterrupted].
  rewrite Htr2, Hnst2, Hfl, Htr, Hal, Hnst, Hr.
  repeat split; [apply Q.le_max_r | apply Q.le_max_l].
Qed.

Lemma chunk_starts_at_max_witness :
  let m := audioMessage (lit "AAAAAAAA") in
  let s := run demoHost [OnMessage m (1 # 2); DecodeSettled 0] activeSession in
  decode demoHost (lit "AAAAAAAA") = Some [0; 0; 0; 0; 0; 0] /\
  Codec.decodeToAudioBuffer [0; 0; 0; 0; 0; 0] 24000 1
  = Some (Codec.mkAudioBuffer [0 # 32768; 0 # 32768; 0 # 32768]%Q 24000 1) /\
  trace (run demoHost [OnMessage m (1 # 4); DecodeSettled 0] s)
  = trace s ++ [SourceStart 5%nat 1%nat (3 # 24000)
                  (Qmax (nextStartTimeRef s) (1 # 4))].
Proof.
  intros m s. split; [reflexivity |]. split; [reflexivity |].
  exact (proj1 (chunk_starts_at_max demoHost s m (1 # 4) (lit "AAAAAAAA")
                  (mkContexts 0%nat 1%nat) [0; 0; 0; 0; 0; 0]
                  (Codec.mkAudioBuffer [0 # 32768; 0 # 32768; 0 # 32768]%Q 24000 1)
                  eq_refl eq_refl eq_refl eq_refl eq_refl eq_refl)).
Defined.

(** X12: when one message carries both audio and [interrupted], the
    interruption is applied after the chunk of that message is scheduled: the
    chunk is started and then stopped together with every source that was
    live, the live set ends empty and the cursor at 0. *)
Theorem interrupted_with_audio (host : Host) (s : App) (m : LiveServerMessage) (t : Q)
    (base64Audio : jsstring) (ctxs : AudioContexts) (bytes : list Z)
    (buf : Codec.AudioBuffer) :
  inlineData m = Some base64Audio ->
  truthy base64Audio = true ->
  audioContextsRef s = Some ctxs ->
  decode host base64Audio = Some bytes ->
  Codec.decodeToAudioBuffer bytes 24000 1 = Some buf ->
  interrupted m = true ->
  let s1 := step host (OnMessage m t) s in
  let s2 := step host (DecodeSettled (List.length (inFlight s))) s1 in
  trace s1 = trace s /\ sourcesRef s1 = sourcesRef s /\
  trace s2 = trace s
             ++ [SourceStart (allocated s) (output ctxs) (Codec.duration buf)
                   (Qmax (nextStartTimeRef s) t)]
             ++ map SourceStop (set_add (allocated s) (sourcesRef s)) /\
  sourcesRef s2 = [] /\ nextStartTimeRef s2 = 0%Q.
Proof.
  intros Hd Ht Hc E Hdec Hflag. cbv zeta. unfold step.
  destruct (received_decodable host s m t _ _ _ Hd Ht Hc E)
    as (s1 & -> & Hn & Hr & Htr & Hsrc & Hal & Hnst).
  cbn [fst].
  destruct (settle_decoded host s1 _ _ buf Hn Hdec) as (s2 & -> & Htr2 & _ & Hsrc2 & _).
  cbn [p_interrupted p_ctx fst] in *. rewrite Hflag. cbn [onInterrupted].
  unfold interrupt.
  cbn [trace sourcesRef nextStartTimeRef setNextStartTime setSources emit].
  rewrite Htr2, Hsrc2, Htr, Hsrc, Hal, Hnst, <- app_assoc.
  repeat split.
Qed.

Lemma interrupted_with_audio_witness :
  let m := mkMessage None None false (Some (lit "AAAAAAAA")) true in
  let s := run demoHost [OnMessage (audioMessage (lit "AAAAAAAA")) (1 # 2);
                         DecodeSettled 0] activeSession in
  let s2 := run demoHost [OnMessage m (1 # 2); DecodeSettled 0] s in
  interrupted m = true /\
  stopped (trace s2) = [4%nat; 5%nat] /\ sourcesRef s2 = [] /\
  nextStartTimeRef s2 = 0%Q.
Proof.
  intros m s s2. split; [reflexivity |].
  destruct (interrupted_with_audio demoHost s m (1 # 2) (lit "AAAAAAAA")
              (mkContexts 0%nat 1%nat) [0; 0; 0; 0; 0; 0]
              (Codec.mkAudioBuffer [0 # 32768; 0 # 32768; 0 # 32768]%Q 24000 1)
              eq_refl eq_refl eq_refl eq_refl eq_refl eq_refl)
    as (_ & _ & Htr & Hsrc & Hnst).
  split; [| split; [exact Hsrc | exact Hnst]].
  exact (eq_trans (f_equal stopped Htr) eq_refl).
Defined.

Lemma scheduled_stops l : flat_map scheduled (map SourceStop l) = [].
Proof. induction l; [reflexivity | exact IHl]. Qed.

Lemma onInterrupted_schedules_nothing flag s :
  inFlight (onInterrupted flag s) = inFlight s /\
  schedule (onInterrupted flag s) = schedule s /\
  started (trace (onInterrupted flag s)) = started (trace s).
Proof.
  destruct flag; [| repeat split]. unfold onInterrupted, interrupt, schedule.
  cbn [inFlight trace setNextStartTime setSources emit].
  rewrite flat_map_app, started_app, scheduled_stops, started_stops, !app_nil_r.
  repeat split.
Qed.



(** *** Starting and stopping *)

(** X14: from a state with no session running, a start that succeeds puts the
    session in the connecting state and acquires two audio contexts, the
    microphone stream and the session promise, calling nothing yet; a stop
    after it, before or after [onopen], closes the session, stops the stream,
    closes both contexts, stops every live source, and leaves nothing held. *)
Theorem start_then_stop_releases (host : Host) (s : App) (f : Faults) (g : failure) :
  has_key (API_KEY host) = true ->
  isActive (sessionState s) = false ->
  isConnecting (sessionState s) = false ->
  let a := allocated s in
  let s1 := step host (Click None f) s in
  let s2 := step host (Click g noFaults) s1 in
  let s2' := run host [OnOpen; Click g noFaults] s1 in
  sessionState s1 = mkSessionState false true None /\
  audioContextsRef s1 = Some (mkContexts a (S a)) /\
  streamRef s1 = Some (2 + a)%nat /\
  sessionPromiseRef s1 = Some (3 + a)%nat /\
  trace s1 = trace s /\
  sessionState (step host OnOpen s1) = mkSessionState true false None /\
  s2 = tornDown s1 /\ s2' = tornDown s1 /\
  trace s2 = trace s ++ [SessionClose (3 + a)%nat; TrackStop (2 + a)%nat;
                         ContextClose a; ContextClose (S a)]
             ++ map SourceStop (sourcesRef s) /\
  no_session s2.
Proof.
  intros Hk Ha Hc.
  destruct s as [es ci co [act con err] nst ctxs srcs str ses fl al uc nc tr].
  cbn [sessionState isActive isConnecting] in Ha, Hc. subst act con.
  cbv zeta.
  assert (E1 : step host (Click None f)
                 (mkApp es ci co (mkSessionState false false err) nst ctxs srcs str ses
                        fl al uc nc tr)
               = mkApp es ci co (mkSessionState false true None) nst
                       (Some (mkContexts al (S al))) srcs (Some (2 + al)%nat)
                       (Some (3 + al)%nat) fl (4 + al)%nat uc nc tr).
  { unfold step. cbn [handleEvent]. unfold toggleSession.
    cbn [sessionState isActive isConnecting orb]. unfold startSession.
    rewrite Hk. cbn [negb]. cbv zeta. setters. cbn [fst]. reflexivity. }
  rewrite E1. cbn [sessionState audioContextsRef streamRef sessionPromiseRef trace allocated].
  assert (E2 : forall x, isActive (sessionState x) || isConnecting (sessionState x) = true ->
                         step host (Click g noFaults) x = tornDown x).
  { intros x Hx. unfold step. cbn [handleEvent]. unfold toggleSession.
    rewrite Hx. now rewrite cleanupSession_noFaults. }
  rewrite E2 by reflexivity.
  cbn [run fold_left]. rewrite E2 by reflexivity.
  repeat split.
Qed.

Lemma start_then_stop_releases_witness :
  has_key (API_KEY demoHost) = true /\
  let s1 := step demoHost (Click None noFaults) init in
  let s2 := step demoHost (Click None noFaults) s1 in
  let s2' := run demoHost [OnOpen; Click None noFaults] s1 in
  sessionState s1 = mkSessionState false true None /\
  audioContextsRef s1 = Some (mkContexts 0%nat 1%nat) /\
  streamRef s1 = Some 2%nat /\
  sessionPromiseRef s1 = Some 3%nat /\
  trace s1 = [] /\
  sessionState (step demoHost OnOpen s1) = mkSessionState true false None /\
  s2 = tornDown s1 /\ s2' = tornDown s1 /\
  trace s2 = [SessionClose 3%nat; TrackStop 2%nat; ContextClose 0%nat; ContextClose 1%nat] /\
  no_session s2.
Proof.
  assert (H : has_key (API_KEY demoHost) = true) by reflexivity.
  split; [exact H |].
  exact (start_then_stop_releases demoHost init noFaults None H eq_refl eq_refl).
Defined.

(** X15: a start that fails, for want of an API key or because the microphone
    is refused, with a teardown that succeeds: without a key nothing is
    created; with a key the two audio contexts created before the microphone
    request are closed again; in both cases no stream and no session are
    acquired, nothing is held afterwards, and the session state ends idle with
    no error message, the message set in the [catch] block being reset by the
    teardown. *)
Theorem failed_start_releases (host : Host) (s : App) (g : failure) :
  has_key (API_KEY host) = false \/ g <> None ->
  let a := allocated s in
  let created :=
    if has_key (API_KEY host)
    then setAudioContexts (Some (mkContexts a (S a))) (alloc 2 s)
    else s in
  let r := startSession host g noFaults s in
  r = (tornDown (emit [ConsoleError] created), Returned) /\
  sessionState (fst r) = idle /\
  no_session (fst r) /\
  trace (fst r) = trace s ++ ConsoleError :: teardownEffects created /\
  allocated (fst r) = (if has_key (API_KEY host) then 2 + a else a)%nat.
Proof.
  intros H. cbv zeta. unfold startSession, startFailed. cbv zeta.
  destruct (has_key (API_KEY host)) eqn:Hk; cbn [negb].
  - destruct g as [msg |]; [| destruct H as [H | H]; [discriminate | contradiction]].
    rewrite cleanupSession_noFaults. cbn [fst].
    split; [reflexivity |]. split; [reflexivity |]. split; [repeat split |].
    split; [| reflexivity].
    cbn [trace tornDown emit setSessionState]. now rewrite <- app_assoc.
  - rewrite cleanupSession_noFaults. cbn [fst].
    split; [reflexivity |]. split; [reflexivity |]. split; [repeat split |].
    split; [| reflexivity].
    cbn [trace tornDown emit setSessionState]. now rewrite <- app_assoc.
Qed.

Lemma failed_start_releases_witness :
  let r := startSession demoHost (Some (lit "Permission denied")) noFaults init in
  (has_key (API_KEY demoHost) = false \/ Some (lit "Permission denied") <> None) /\
  trace (fst r) = [ConsoleError; ContextClose 0%nat; ContextClose 1%nat] /\
  sessionState (fst r) = idle.
Proof.
  intros r.
  assert (H : has_key (API_KEY demoHost) = false \/ Some (lit "Permission denied") <> None)
    by (right; discriminate).
  split; [exact H |].
  destruct (failed_start_releases demoHost init (Some (lit "Permission denied")) H)
    as (_ & Hs & _ & Htr & _).
  split; [exact Htr | exact Hs].
Defined.

(** *** Session state and resources *)

Lemma cleanupSession_nested (f : Faults) (s : App) :
  resources_nested s -> resources_nested (fst (cleanupSession f s)).
Proof.
  destruct s as [es ci co st nst ctxs srcs str ses fl al uc nc tr].
  unfold resources_nested.
  destruct f as [[] [] [] []]; destruct ses, str, ctxs;
    cbv [cleanupSession andThen ret closeTransport stopMicrophone releaseContexts
         interrupt resetState sessionPromise_rejects session_close_throws
         input_close_rejects output_close_rejects fst];
    setters; intros [H1 H2]; split; intros H;
    try congruence; try (apply H1; congruence); try (apply H2; congruence).
Qed.

Lemma cleanupSession_state (f : Faults) (s : App) :
  sessionState (fst (cleanupSession f s)) = idle \/
  sessionState (fst (cleanupSession f s)) = sessionState s.
Proof.
  destruct (snd (cleanupSession f s)) eqn:E.
  - left. now rewrite (cleanupSession_returned f s E).
  - right. exact (proj1 (cleanupSession_threw f s E)).
Qed.

Lemma cleanupSession_session_sound (f : Faults) (s : App) :
  session_sound s -> session_sound (fst (cleanupSession f s)).
Proof.
  intros [Hp Hn]. split; [| now apply cleanupSession_nested].
  unfold phase_exclusive in *.
  destruct (cleanupSession_state f s) as [-> | ->]; [reflexivity | exact Hp].
Qed.

Section SessionInvariant.

Variable host : Host.

Lemma onAudio_session m t : keeps session_part (onAudio host m t).
Proof.
  intros s. unfold onAudio, onInterrupted.
  destruct (inlineData m) as [b |], (audioContextsRef s), (interrupted m);
    try reflexivity; destruct (truthy b); try reflexivity;
    destruct (decode host b); reflexivity.
Qed.

Lemma resume_session p : keeps session_part (resume p).
Proof.
  intros s. unfold resume, onInterrupted.
  destruct (Codec.decodeToAudioBuffer (p_data p) 24000 1); [| reflexivity].
  destruct (p_interrupted p); reflexivity.
Qed.

Lemma handleTranscription_session_part m s :
  session_part (handleTranscription host m s) = session_part s.
Proof. unfold session_part. now autorewrite with frame. Qed.

Lemma session_sound_same (s s' : App) :
  session_part s' = session_part s -> session_sound s -> session_sound s'.
Proof.
  unfold session_part, session_sound, phase_exclusive, resources_nested.
  intros E. injection E as -> -> -> ->. exact (fun H => H).
Qed.

Lemma startSession_session_sound g f s :
  isActive (sessionState s) || isConnecting (sessionState s) = false ->
  session_sound s -> session_sound (fst (startSession host g f s)).
Proof.
  intros Hidle [Hp [H1 H2]]. apply orb_false_iff in Hidle as [Ha Hc].
  unfold startSession, startFailed. cbv zeta.
  destruct (negb (has_key (API_KEY host))).
  - apply cleanupSession_session_sound. split; [reflexivity |]. split; assumption.
  - destruct g as [msg |].
    + apply cleanupSession_session_sound. split; [reflexivity |].
      split; [exact H1 | intros _; discriminate].
    + cbn [fst]. split.
      * unfold phase_exclusive.
        cbn [sessionState setSessionPromise setStream setAudioContexts alloc
             setSessionState isActive isConnecting].
        rewrite Ha. reflexivity.
      * split; intros _; discriminate.
Qed.

Lemma step_session_sound e s : session_sound s -> session_sound (step host e s).
Proof.
  intros H. unfold step.
  destruct e as [g f | | m t | k | src | f | f]; cbn [handleEvent].
  - unfold toggleSession.
    destruct (isActive (sessionState s) || isConnecting (sessionState s)) eqn:E.
    + now apply cleanupSession_session_sound.
    + now apply startSession_session_sound.
  - destruct H as [_ Hn]. split; [reflexivity | exact Hn].
  - unfold onmessage. apply (session_sound_same s); [| exact H].
    now rewrite onAudio_session, handleTranscription_session_part.
  - unfold decodeSettled. destruct (nth_error (inFlight s) k); [| exact H].
    apply (session_sound_same s); [| exact H]. now rewrite resume_session.
  - exact H.
  - unfold onerror. apply cleanupSession_session_sound.
    destruct H as [Hp Hn]. split; [exact Hp | exact Hn].
  - unfold onclose. now apply cleanupSession_session_sound.
Qed.

Lemma run_session_sound es s : session_sound s -> session_sound (run host es s).
Proof.
  revert s. induction es as [| e es IH]; intros s H; [exact H |].
  cbn [run fold_left]. apply IH. now apply step_session_sound.
Qed.

Lemma init_session_sound : session_sound init.
Proof. split; [reflexivity |]. split; intros H; now elim H. Qed.

End SessionInvariant.

(** X16: in every state reached from the initial one, whatever fails on the
    way, the session is never active and connecting at once: the state is
    idle, connecting or active. *)
Theorem phases_exclusive (host : Host) (es : list event) :
  let st := sessionState (run host es init) in
  isActive st && isConnecting st = false.
Proof. exact (proj1 (run_session_sound host es init init_session_sound)). Qed.


(** *** The transcript view *)

Lemma entryBlock_not_placeholder es : ~ In Placeholder (map entryBlock es).
Proof.
  intros H. apply in_map_iff in H as (e & E & _). discriminate E.
Qed.

Lemma streaming_entryBlocks es : streaming (map entryBlock es) = [].
Proof. induction es; [reflexivity | exact IHes]. Qed.

Lemma TranscriptionView_idle es :
  TranscriptionView es [] []
  = match es with [] => [Placeholder] | _ => map entryBlock es end.
Proof.
  unfold TranscriptionView. destruct es; cbn [List.length Nat.eqb andb truthy negb app].
  - reflexivity.
  - now rewrite app_nil_r.
Qed.

(** X18: the view is never blank; the placeholder is shown exactly when the log
    and both buffers are empty, and then it is all that is shown. *)
Theorem placeholder_iff_nothing_to_show (es : list TranscriptionEntry)
    (ci co : jsstring) :
  let v := TranscriptionView es ci co in
  v <> [] /\
  (In Placeholder v <-> es = [] /\ ci = [] /\ co = []) /\
  (In Placeholder v -> v = [Placeholder]).
Proof.
  cbv zeta. unfold TranscriptionView.
  destruct es as [| e es], ci as [| c ci], co as [| c' co];
    cbn [List.length Nat.eqb andb truthy negb app map];
    (split; [discriminate |]);
    (split; [split; [| intros (H1 & H2 & H3); try discriminate; now left] |]);
    try (intros _; repeat split; reflexivity);
    try reflexivity;
    try (intros [H | H]; [discriminate H |]);
    try (intros H);
    try (exfalso;
         repeat (apply in_app_or in H as [H | H]);
         try (apply (entryBlock_not_placeholder es), H);
         repeat (destruct H as [H | H]; try discriminate H); try contradiction).
Qed.

(** X19: once a turn completion has been handled, and once a teardown has
    completed, no streaming bubble is on screen: the view is the placeholder
    when the log is empty and otherwise the bubbles of the log, one per entry
    in log order. *)
Theorem no_streaming_after_completion (host : Host) (s : App) (f : Faults) :
  let shown (x : App) :=
    match entries x with [] => [Placeholder] | l => map entryBlock l end in
  transcript (completeTurn host s) = shown (completeTurn host s) /\
  streaming (transcript (completeTurn host s)) = [] /\
  transcript (tornDown s) = shown (tornDown s) /\
  streaming (transcript (tornDown s)) = [].
Proof.
  cbv zeta. unfold transcript.
  destruct (completeTurn_buffers host s) as [-> ->].
  cbn [currentInput currentOutput tornDown].
  rewrite !TranscriptionView_idle.
  assert (Hs : forall l, streaming match l with
                                   | [] => [Placeholder]
                                   | _ :: _ => map entryBlock l
                                   end = []).
  { intros [| e l]; [reflexivity | apply streaming_entryBlocks]. }
  rewrite !Hs.
  split; [destruct (entries (completeTurn host s)); reflexivity |].
  split; [reflexivity |].
  change (entries (tornDown s)) with (entries s).
  split; [destruct (entries s); reflexivity | reflexivity].
Qed.

(** X20: in every state reached from the initial one, each finalized bubble on
    screen shows a text with a character that is not white space, shown with
    the entry's id as its key. *)
Theorem finalized_bubbles_nonblank (host : Host) (es : list event) :
  Forall bubble_nonblank (transcript (run host es init)).
Proof.
  assert (H : forall s, Forall (fun e => nonblank (text e) = true) (entries s) ->
                        Forall (fun e => nonblank (text e) = true)
                               (entries (run host es s))).
  { induction es as [| e es IH]; intros s Hs; [exact Hs |].
    cbn [run fold_left]. apply IH. now apply step_entries_nonblank. }
  specialize (H init (Forall_nil _)).
  unfold transcript, TranscriptionView.
  repeat (apply Forall_app; split).
  - destruct (_ && _ && _); repeat constructor.
  - apply Forall_map. eapply Forall_impl; [| exact H]. intros e He. exact He.
  - destruct (truthy _); repeat constructor.
  - destruct (truthy _); repeat constructor.
Qed.
